(** * Bloomify Engine: beatmap generators

    A shallow embedding of the three generator scripts
    ([auto_gen.py], [auto_gen_Silly.py], [auto_gen_expert.py]) and the
    properties of their note lists.

    Conventions of the embedding:
    - Python [int] is [Z]; list indices that the code computes stay in [Z]
      and are converted at the point of the subscript.
    - Seconds (numpy [float64]) are exact rationals [Q]: every statement below
      is about the arithmetic of the code without rounding error.
    - The audio analysis (librosa) is an input: beat times, onset times, the
      RMS curve and the frame index of a time.
    - [random] is an explicit generator state threaded through the code.
    - A Python exception is the [Raise] case of [result]. *)

From Stdlib Require Import String.
From Stdlib Require Import List ZArith QArith Qround Lia Lqa Bool Sorted.
From Stdlib Require Import Permutation.
Import ListNotations.

Open Scope Z_scope.

(** ** Python values and control *)

Module Py.

Inductive exn : Type :=
| IndexError
| ValueError.

Inductive result (A : Type) : Type :=
| Ok (a : A)
| Raise (e : exn).
Arguments Ok {A} a.
Arguments Raise {A} e.

Definition bind {A B : Type} (m : result A) (k : A -> result B) : result B :=
  match m with
  | Ok a => k a
  | Raise e => Raise e
  end.

(** [range(n)]: empty when [n <= 0]. *)
Definition range (n : Z) : list Z :=
  map Z.of_nat (seq 0 (Z.to_nat n)).

(** [len(l)] as a Python integer. *)
Definition len {A : Type} (l : list A) : Z := Z.of_nat (length l).

(** [int(x)] on a float: truncation toward zero. *)
Definition int (x : Q) : Z := Z.quot (Qnum x) (Zpos (Qden x)).

(** [x in l] on a list of integers. *)
Definition mem (x : Z) (l : list Z) : bool := existsb (Z.eqb x) l.

(** [l.remove(x)]: drops the first occurrence (the callers test membership
    before, so the [ValueError] case is not reached). *)
Fixpoint remove (x : Z) (l : list Z) : list Z :=
  match l with
  | [] => []
  | y :: l' => if x =? y then l' else y :: remove x l'
  end.

(** [a < b] on floats. *)
Definition Qltb (a b : Q) : bool := negb (Qle_bool b a).

(** [l[i]] for an index that the code keeps non-negative: [IndexError] past
    the end. *)
Definition getitem {A : Type} (l : list A) (i : Z) : result A :=
  match nth_error l (Z.to_nat i) with
  | Some x => Ok x
  | None => Raise IndexError
  end.

(** [a[idx]] for an array of indices (numpy): every index is looked up, the
    first one past the end raises. *)
Fixpoint take {A : Type} (a : list A) (idx : list nat) : result (list A) :=
  match idx with
  | [] => Ok []
  | i :: idx' =>
      match nth_error a i with
      | Some x =>
          match take a idx' with
          | Ok xs => Ok (x :: xs)
          | Raise e => Raise e
          end
      | None => Raise IndexError
      end
  end.

End Py.

Notation "x <- m ;; k" := (Py.bind m (fun x => k))
  (at level 61, m at next level, right associativity).
Notation "' p <- m ;; k" := (Py.bind m (fun x => let p := x in k))
  (at level 61, p pattern, m at next level, right associativity).

(** ** The random module *)

Module Random.

(** The generator state: an infinite supply of raw words and a cursor. *)
Record rng : Type := mkRng { words : nat -> Z; cursor : nat }.

Definition next (g : rng) : Z * rng :=
  (words g (cursor g), mkRng (words g) (S (cursor g))).

(** [random.choice(l)]: [IndexError] on an empty sequence, else the element
    at an index below [len(l)] drawn from the generator. *)
Definition choice {A : Type} (l : list A) (g : rng) : Py.result (A * rng) :=
  match l with
  | [] => Py.Raise Py.IndexError
  | _ =>
      let '(w, g') := next g in
      match nth_error l (Z.to_nat (w mod Py.len l)) with
      | Some x => Py.Ok (x, g')
      | None => Py.Raise Py.IndexError
      end
  end.

(** [random.random()]: 53 bits scaled into [0, 1). *)
Definition random (g : rng) : Q * rng :=
  let '(w, g') := next g in
  (Qmake (w mod 2 ^ 53) (2 ^ 53), g').

End Random.

(** ** numpy *)

Module Numpy.

Fixpoint insert (x : Q) (l : list Q) : list Q :=
  match l with
  | [] => [x]
  | y :: l' => if Qle_bool x y then x :: l else y :: insert x l'
  end.

Definition sort (l : list Q) : list Q := fold_right insert [] l.

(** [np.percentile(a, q)] with numpy's default method (linear
    interpolation): on the sorted data the virtual index is
    [(n - 1) * q / 100], its two neighbours are clipped to [0, n - 1] and
    interpolated. [q] outside [0, 100] raises [ValueError]. The callers pass
    non-empty arrays; on an empty one (numpy: nan) the value is not used. *)
Definition percentile (a : list Q) (q : Q) : Py.result Q :=
  if Qle_bool 0 q && Qle_bool q 100 then
    let arr := sort a in
    let n := Py.len arr in
    let virtual_index := (inject_Z (n - 1) * (q / 100))%Q in
    let previous := Z.max 0 (Z.min (n - 1) (Qfloor virtual_index)) in
    let next := Z.max 0 (Z.min (n - 1) (Qfloor virtual_index + 1)) in
    let gamma := (virtual_index - inject_Z (Qfloor virtual_index))%Q in
    let lo := nth (Z.to_nat previous) arr 0%Q in
    let hi := nth (Z.to_nat next) arr 0%Q in
    Py.Ok (lo + (hi - lo) * gamma)%Q
  else Py.Raise Py.ValueError.

End Numpy.

(** ** The audio analysis and the output records *)

(** What librosa returns for one audio file: the beat grid
    ([frames_to_time(beat_frames)]), the onsets ([onset_detect]), the RMS
    curve ([feature.rms(y)[0]]) and [time_to_frames] on the non-negative times
    it produced. *)
Record Analysis : Type := mkAnalysis {
  beat_times : list Q;
  onset_times : list Q;
  rms : list Q;
  time_to_frames : Q -> nat
}.

Record NoteEvent : Type := mkNote { time : Z; lane : Z }.

(** The beatmap dictionary; of the metadata only [mapper] is kept. *)
Record Beatmap : Type := mkBeatmap { mapper : String.string; notes : list NoteEvent }.

(** ** auto_gen_expert.py *)

Module Expert.

(** *** Section 2 of [generate_stream_map]: stream sections *)

Definition StreamSection : Type := (Z * Z)%type.

(** One iteration of the [for i, is_high in enumerate(...)] loop; the state
    is [(stream_sections, current_stream_start)]. *)
Definition scan_step (min_stream_duration_beats : Q)
    (st : list StreamSection * Z) (i : Z) (is_high : bool)
  : list StreamSection * Z :=
  let '(stream_sections, current_stream_start) := st in
  if is_high && (current_stream_start =? -1) then
    (stream_sections, i)
  else if negb is_high && negb (current_stream_start =? -1) then
    ((if Qle_bool min_stream_duration_beats
                  (inject_Z (i - current_stream_start))
      then stream_sections ++ [(current_stream_start, i)]
      else stream_sections), -1)
  else st.

Fixpoint scan (min_stream_duration_beats : Q) (is_beat_high_energy : list bool)
    (i : Z) (st : list StreamSection * Z) : list StreamSection * Z :=
  match is_beat_high_energy with
  | [] => st
  | is_high :: rest =>
      scan min_stream_duration_beats rest (i + 1)
           (scan_step min_stream_duration_beats st i is_high)
  end.

(** The loop followed by the check for a stream that reaches the end of the
    song; [n_beats] is [len(beat_times)]. *)
Definition find_stream_sections (is_beat_high_energy : list bool) (n_beats : Z)
    (min_stream_duration_beats : Q) : list StreamSection :=
  let '(stream_sections, current_stream_start) :=
    scan min_stream_duration_beats is_beat_high_energy 0 ([], -1) in
  if negb (current_stream_start =? -1)
     && Qle_bool min_stream_duration_beats
                 (inject_Z (n_beats - current_stream_start))
  then stream_sections ++ [(current_stream_start, n_beats)]
  else stream_sections.

(** Lines 43-52: the energy flag of every beat. *)
Definition classify_beats (a : Analysis) : Py.result (list bool) :=
  energy_threshold <- Numpy.percentile (rms a) 60 ;;
  Py.Ok (map (fun t =>
            let frame_index := time_to_frames a t in
            if (frame_index <? length (rms a))%nat
            then Py.Qltb energy_threshold (nth frame_index (rms a) 0%Q)
            else false)
          (beat_times a)).

(** *** Section 3: quantized note timestamps *)

(** [any(start <= current_beat < end for start, end in stream_sections)] *)
Definition in_stream (stream_sections : list StreamSection) (current_beat : Z)
  : bool :=
  existsb (fun '(start, end_) => (start <=? current_beat) && (current_beat <? end_))
          stream_sections.

(** [beat_times[i]] inside the loop, where [0 <= i < len(beat_times)]. *)
Definition beat_at (beat_times : list Q) (i : Z) : Q :=
  nth (Z.to_nat i) beat_times 0%Q.

(** The [while current_beat < len(beat_times) - 1] loop; the state is
    [(current_beat, note_timestamps, beat_flags)]. Every iteration advances
    [current_beat], so [len(beat_times)] iterations of fuel are never used
    up (lemma [note_timestamps_fuel]). *)
Fixpoint beat_loop (fuel : nat) (beat_times onset_times : list Q)
    (stream_sections : list StreamSection) (stream_subdivision : Z)
    (current_beat : Z) (note_timestamps : list Q) (beat_flags : list bool)
  : list Q * list bool :=
  match fuel with
  | O => (note_timestamps, beat_flags)
  | S fuel' =>
      if current_beat <? Py.len beat_times - 1 then
        let start_time := beat_at beat_times current_beat in
        let end_time := beat_at beat_times (current_beat + 1) in
        if in_stream stream_sections current_beat then
          beat_loop fuel' beat_times onset_times stream_sections
            stream_subdivision (current_beat + 1)
            (note_timestamps ++
               map (fun i => (start_time + inject_Z i * (end_time - start_time)
                                           / inject_Z stream_subdivision)%Q)
                   (Py.range stream_subdivision))
            (beat_flags ++ map (fun i => i =? 0) (Py.range stream_subdivision))
        else
          let onsets_in_beat :=
            filter (fun t => Qle_bool start_time t && Py.Qltb t end_time)
                   onset_times in
          beat_loop fuel' beat_times onset_times stream_sections
            stream_subdivision (current_beat + 1)
            (note_timestamps ++
               [match onsets_in_beat with
                | t :: _ => t
                | [] => start_time
                end])
            (beat_flags ++ [true])
      else (note_timestamps, beat_flags)
  end.

Definition note_timestamps_of (beat_times onset_times : list Q)
    (stream_sections : list StreamSection) (stream_subdivision : Z)
  : list Q * list bool :=
  beat_loop (length beat_times) beat_times onset_times stream_sections
            stream_subdivision 0 [] [].

(** *** Section 4: pattern-based placement *)

(** [patterns.values()], in insertion order. *)
Definition patterns : list (list Z) :=
  [ [0; 2; 1; 3; 2; 0; 3; 1];
    [0; 1; 2; 3; 2; 1; 0; 1];
    [0; 3; 1; 2; 1; 3; 0; 2] ].

(** The [for i, t_sec in enumerate(note_timestamps)] loop; the state is
    [(pattern_index, notes)] and the generator. *)
Fixpoint place_loop (lanes : Z) (chord_chance : Q) (current_pattern : list Z)
    (beat_flags : list bool) (note_timestamps : list Q) (i : Z)
    (pattern_index : Z) (notes : list NoteEvent) (g : Random.rng)
  : Py.result (list NoteEvent) :=
  match note_timestamps with
  | [] => Py.Ok notes
  | t_sec :: rest =>
      let time_ms := Py.int (t_sec * 1000) in
      is_downbeat <- Py.getitem beat_flags i ;;
      lane1 <- Py.getitem current_pattern
                 (pattern_index mod Py.len current_pattern) ;;
      let notes := notes ++ [mkNote time_ms lane1] in
      let pattern_index := pattern_index + 1 in
      if is_downbeat then
        let '(u, g) := Random.random g in
        if Py.Qltb u chord_chance then
          let possible_lanes :=
            filter (fun l => negb (l =? lane1)) (Py.range lanes) in
          match possible_lanes with
          | [] =>
              place_loop lanes chord_chance current_pattern beat_flags rest
                         (i + 1) pattern_index notes g
          | _ =>
              ' (lane2, g) <- Random.choice possible_lanes g ;;
              place_loop lanes chord_chance current_pattern beat_flags rest
                         (i + 1) pattern_index
                         (notes ++ [mkNote time_ms lane2]) g
          end
        else
          place_loop lanes chord_chance current_pattern beat_flags rest
                     (i + 1) pattern_index notes g
      else
        place_loop lanes chord_chance current_pattern beat_flags rest
                   (i + 1) pattern_index notes g
  end.

Definition generate_stream_map (a : Analysis) (lanes stream_subdivision : Z)
    (min_stream_duration_beats chord_chance : Q) (g : Random.rng)
  : Py.result Beatmap :=
  is_beat_high_energy <- classify_beats a ;;
  let stream_sections :=
    find_stream_sections is_beat_high_energy (Py.len (beat_times a))
                         min_stream_duration_beats in
  let '(note_timestamps, beat_flags) :=
    note_timestamps_of (beat_times a) (onset_times a) stream_sections
                       stream_subdivision in
  ' (current_pattern, g) <- Random.choice patterns g ;;
  notes <- place_loop lanes chord_chance current_pattern beat_flags
                      note_timestamps 0 0 [] g ;;
  Py.Ok (mkBeatmap "StreamGenerator"%string notes).

End Expert.

(** ** auto_gen.py and auto_gen_Silly.py *)

(** Step 5 of both scripts: the onsets at or above the percentile threshold
    of the onset strengths. *)
Definition filter_onsets (a : Analysis) (difficulty : Q) : Py.result (list Q) :=
  let onset_frames := map (time_to_frames a) (onset_times a) in
  onset_strengths <- Py.take (rms a) onset_frames ;;
  strength_threshold <-
    Numpy.percentile onset_strengths ((1 - difficulty) * 100)%Q ;;
  Py.Ok (map fst (filter (fun '(t, s) => Qle_bool strength_threshold s)
                         (combine (onset_times a) onset_strengths))).

(** Step 6 of both scripts: one note per timestamp, never on the lane of
    the note before; the state is [(notes, last_lane)] and the generator. *)
Fixpoint place_no_repeat (lanes : Z) (timestamps : list Q)
    (notes : list NoteEvent) (last_lane : Z) (g : Random.rng)
  : Py.result (list NoteEvent) :=
  match timestamps with
  | [] => Py.Ok notes
  | t_sec :: rest =>
      let time_ms := Py.int (t_sec * 1000) in
      let possible_lanes := Py.range lanes in
      let possible_lanes :=
        if Py.mem last_lane possible_lanes && (1 <? Py.len possible_lanes)
        then Py.remove last_lane possible_lanes
        else possible_lanes in
      ' (chosen_lane, g) <- Random.choice possible_lanes g ;;
      place_no_repeat lanes rest (notes ++ [mkNote time_ms chosen_lane])
                      chosen_lane g
  end.

Module Smart.

Definition generate_smart_beatmap (a : Analysis) (difficulty : Q) (lanes : Z)
    (g : Random.rng) : Py.result Beatmap :=
  strong_onset_times_sec <-
    (if 0 <? Py.len (onset_times a) then filter_onsets a difficulty
     else Py.Ok []) ;;
  notes <- place_no_repeat lanes strong_onset_times_sec [] (-1) g ;;
  Py.Ok (mkBeatmap "SmartGenerator"%string notes).

End Smart.

Module Configurable.

(** The [config] dictionary: a key may be absent. *)
Record Config : Type := mkConfig {
  cfg_difficulty : option Q;
  cfg_lanes : option Z;
  cfg_mode : option String.string
}.

(** [config.get(key, default)] *)
Definition get {A : Type} (v : option A) (default : A) : A :=
  match v with
  | Some x => x
  | None => default
  end.

Definition generate_configurable_beatmap (a : Analysis) (config : Config)
    (g : Random.rng) : Py.result Beatmap :=
  let difficulty := get (cfg_difficulty config) 1%Q in
  let lanes := get (cfg_lanes config) 4 in
  let mode := get (cfg_mode config) "chaotic"%string in
  notes_to_place <-
    (if String.eqb mode "smart"%string && (0 <? Py.len (onset_times a))
     then filter_onsets a difficulty
     else Py.Ok (onset_times a)) ;;
  notes <- place_no_repeat lanes notes_to_place [] (-1) g ;;
  Py.Ok (mkBeatmap (String.append "ConfigurableGenerator ("%string
                      (String.append mode ")"%string)) notes).

End Configurable.


(** ** Specification vocabulary *)

(** [time_ms] of a timestamp in seconds, as both placement loops compute
    it. *)
Definition ms (t_sec : Q) : Z := Py.int (t_sec * 1000).

(** Beat [i] lies in some stream section [start, end). *)
Definition in_some_section (stream_sections : list Expert.StreamSection)
    (i : Z) : Prop :=
  exists s e, In (s, e) stream_sections /\ s <= i < e.

(** [t] is the earliest onset of the beat interval [lo, hi). *)
Definition earliest_onset_in (onsets : list Q) (lo hi t : Q) : Prop :=
  In t onsets /\ (lo <= t)%Q /\ (t < hi)%Q /\
  forall t', In t' onsets -> (lo <= t')%Q -> (t' < hi)%Q -> (t <= t')%Q.

(** No onset falls in the beat interval [lo, hi). *)
Definition no_onset_in (onsets : list Q) (lo hi : Q) : Prop :=
  forall t', In t' onsets -> ~ ((lo <= t')%Q /\ (t' < hi)%Q).

(** The notes are in non-decreasing order of [time]. *)
Definition sorted_by_time (ns : list NoteEvent) : Prop :=
  Sorted Z.le (map time ns).

(** Two notes at different positions that share a [time] are on different
    lanes. *)
Definition distinct_lanes_per_time (ns : list NoteEvent) : Prop :=
  forall i j n1 n2, (i < j)%nat ->
    nth_error ns i = Some n1 -> nth_error ns j = Some n2 ->
    time n1 = time n2 -> lane n1 <> lane n2.

(** Neighbours in the note list are on different lanes. *)
Definition adjacent_lanes_differ (ns : list NoteEvent) : Prop :=
  forall i n1 n2,
    nth_error ns i = Some n1 -> nth_error ns (S i) = Some n2 ->
    lane n1 <> lane n2.

(** Every lane is a valid index for [lanes] lanes. *)
Definition lanes_in_range (lanes : Z) (ns : list NoteEvent) : Prop :=
  Forall (fun n => 0 <= lane n < lanes) ns.

(** The RMS strength the scripts read for an onset at [t]. *)
Definition strength (a : Analysis) (t : Q) : Q :=
  nth (time_to_frames a t) (rms a) 0%Q.

(** Every onset maps to a frame of the RMS curve. *)
Definition onset_frames_valid (a : Analysis) : Prop :=
  Forall (fun t => (time_to_frames a t < length (rms a))%nat) (onset_times a).

(** A note list as the expert placement builds it: per timestamp a primary
    note followed by its chord notes. *)
Definition flatten (groups : list (NoteEvent * list NoteEvent))
  : list NoteEvent :=
  flat_map (fun gr => fst gr :: snd gr) groups.

(** [possible_lanes] of the no-repeat placement at the moment of the
    random choice. *)
Definition possible (lanes last_lane : Z) : list Z :=
  if Py.mem last_lane (Py.range lanes) && (1 <? Py.len (Py.range lanes))
  then Py.remove last_lane (Py.range lanes)
  else Py.range lanes.

(** The notes that the no-repeat placement appends for the timestamps [ts]
    when the lane before them is [last]: one note per timestamp, at its
    millisecond, on a valid lane that differs from the previous one as soon
    as there are two lanes. *)
Fixpoint placed (lanes last : Z) (ts : list Q) (news : list NoteEvent)
  : Prop :=
  match ts, news with
  | [], [] => True
  | t :: ts', n :: news' =>
      time n = ms t /\ 0 <= lane n < lanes /\
      (2 <= lanes -> lane n <> last) /\
      placed lanes (lane n) ts' news'
  | _, _ => False
  end.

(** A primary note with its chord notes, as the expert placement emits
    them for the timestamp [t] when the pattern cursor is [pattern_index]:
    the primary lane is the pattern entry, and a chord note, if any, sits at
    the same millisecond on another lane below [lanes]. *)
Definition group_ok (lanes : Z) (pattern : list Z) (pattern_index : Z)
    (t : Q) (gr : NoteEvent * list NoteEvent) : Prop :=
  fst gr = mkNote (ms t)
             (nth (Z.to_nat (pattern_index mod Py.len pattern)) pattern 0) /\
  (snd gr = [] \/
   exists lane2, snd gr = [mkNote (ms t) lane2] /\
                 0 <= lane2 < lanes /\ lane2 <> lane (fst gr)).

Fixpoint groups_ok (lanes : Z) (pattern : list Z) (pattern_index : Z)
    (ts : list Q) (groups : list (NoteEvent * list NoteEvent)) : Prop :=
  match ts, groups with
  | [], [] => True
  | t :: ts', gr :: groups' =>
      group_ok lanes pattern pattern_index t gr /\
      groups_ok lanes pattern (pattern_index + 1) ts' groups'
  | _, _ => False
  end.

(** The energy flags of the beats ([classify_beats] never raises, see
    [ExpertPlacement.classify_beats_ok]). *)
Definition expert_flags (a : Analysis) : list bool :=
  match Expert.classify_beats a with
  | Py.Ok is_beat_high_energy => is_beat_high_energy
  | Py.Raise _ => []
  end.

(** The stream sections and the note timestamps inside
    [generate_stream_map]. *)
Definition expert_sections (a : Analysis) (min_stream_duration_beats : Q)
  : list Expert.StreamSection :=
  Expert.find_stream_sections (expert_flags a) (Py.len (beat_times a))
                              min_stream_duration_beats.

Definition expert_timestamps (a : Analysis) (stream_subdivision : Z)
    (min_stream_duration_beats : Q) : list Q :=
  fst (Expert.note_timestamps_of (beat_times a) (onset_times a)
         (expert_sections a min_stream_duration_beats) stream_subdivision).

(** What one iteration of the beat loop appends to [note_timestamps] and to
    [beat_flags] for beat [current_beat]. *)
Definition interval_times (beat_times onset_times : list Q)
    (stream_sections : list Expert.StreamSection) (stream_subdivision : Z)
    (current_beat : Z) : list Q :=
  let start_time := Expert.beat_at beat_times current_beat in
  let end_time := Expert.beat_at beat_times (current_beat + 1) in
  if Expert.in_stream stream_sections current_beat then
    map (fun i => (start_time + inject_Z i * (end_time - start_time)
                                / inject_Z stream_subdivision)%Q)
        (Py.range stream_subdivision)
  else
    [match filter (fun t => Qle_bool start_time t && Py.Qltb t end_time)
                  onset_times with
     | t :: _ => t
     | [] => start_time
     end].

Definition interval_flags (stream_sections : list Expert.StreamSection)
    (stream_subdivision : Z) (current_beat : Z) : list bool :=
  if Expert.in_stream stream_sections current_beat then
    map (fun i => i =? 0) (Py.range stream_subdivision)
  else [true].

(** The indices of the beat intervals: [0 .. len(beat_times) - 2]. *)
Definition interval_indices (beat_times : list Q) : list Z :=
  map Z.of_nat (seq 0 (length beat_times - 1)).

(** *** Vocabulary for the stream sections *)

(** The energy flag of beat [k]; false outside the flag list. *)
Definition flag_at (flags : list bool) (k : Z) : bool :=
  (0 <=? k) && nth (Z.to_nat k) flags false.

(** Every beat of [s, e) is high-energy. *)
Definition all_high (flags : list bool) (s e : Z) : Prop :=
  forall k, s <= k < e -> flag_at flags k = true.

(** [s, e) is a run of high-energy beats that cannot be extended: the beat
    before it and the beat after it are low or do not exist. *)
Definition maximal_run (flags : list bool) (s e : Z) : Prop :=
  0 <= s < e /\ e <= Py.len flags /\ all_high flags s e /\
  flag_at flags (s - 1) = false /\ flag_at flags e = false.

(** Each section ends before the next one starts. *)
Definition separated (secs : list Expert.StreamSection) : Prop :=
  StronglySorted (fun a b => snd a < fst b) secs.

(** The state of the scan after the beats below [i]: the open run, if any,
    reaches [i]; the sections are the long enough runs closed before [i]. *)
Definition scan_inv (flags : list bool) (D : Q) (i : Z)
    (st : list Expert.StreamSection * Z) : Prop :=
  let '(secs, css) := st in
  (css = -1 -> flag_at flags (i - 1) = false) /\
  (css <> -1 ->
   0 <= css < i /\ all_high flags css i /\ flag_at flags (css - 1) = false) /\
  (forall s e, In (s, e) secs <->
     0 <= s < e /\ e < i /\ all_high flags s e /\
     flag_at flags (s - 1) = false /\ flag_at flags e = false /\
     (D <= inject_Z (e - s))%Q) /\
  separated secs.

(** The downbeat flags inside [generate_stream_map], beside
    [expert_timestamps]. *)
Definition expert_beat_flags (a : Analysis) (stream_subdivision : Z)
    (min_stream_duration_beats : Q) : list bool :=
  snd (Expert.note_timestamps_of (beat_times a) (onset_times a)
         (expert_sections a min_stream_duration_beats) stream_subdivision).

(** The number of beat intervals inside, and outside, the stream
    sections. *)
Definition stream_intervals (secs : list Expert.StreamSection)
    (beat_times : list Q) : nat :=
  length (filter (Expert.in_stream secs) (interval_indices beat_times)).

Definition plain_intervals (secs : list Expert.StreamSection)
    (beat_times : list Q) : nat :=
  length (filter (fun i => negb (Expert.in_stream secs i))
                 (interval_indices beat_times)).

(** The notes of a result, or its exception. *)
Definition result_notes (r : Py.result Beatmap) : Py.result (list NoteEvent) :=
  match r with
  | Py.Ok bm => Py.Ok (notes bm)
  | Py.Raise e => Py.Raise e
  end.

(** When the expert placement adds a chord to the group of a timestamp
    with downbeat flag [b]: only on a downbeat and a positive chord chance;
    always on a downbeat once the chance is 1 and there are two lanes. *)
Definition chord_rule (lanes : Z) (chord_chance : Q) (b : bool)
    (gr : NoteEvent * list NoteEvent) : Prop :=
  (snd gr <> [] -> b = true /\ (0 < chord_chance)%Q) /\
  (b = true -> (1 <= chord_chance)%Q -> 2 <= lanes -> snd gr <> []).

(** The primary notes alone: timestamp [n] on the pattern entry
    [pattern_index + n], cyclically. *)
Fixpoint pattern_notes (pattern : list Z) (pattern_index : Z) (ts : list Q)
  : list NoteEvent :=
  match ts with
  | [] => []
  | t :: ts' =>
      mkNote (ms t)
             (nth (Z.to_nat (pattern_index mod Py.len pattern)) pattern 0)
      :: pattern_notes pattern (pattern_index + 1) ts'
  end.

(** The number of downbeat flags. *)
Definition downbeats (flags : list bool) : nat :=
  length (filter (fun b => b) flags).

(** *** Vocabulary for notes in the same millisecond *)

(** Every time is strictly earlier than all times two or more places after
    it; for times in non-decreasing order: no three of them are equal. *)
Fixpoint spaced_ms (times : list Z) : Prop :=
  match times with
  | [] => True
  | x :: rest => Forall (fun y => x < y) (tl rest) /\ spaced_ms rest
  end.

(** No three notes share a [time], in the sense of [spaced_ms]. *)
Definition no_three_share_time (ns : list NoteEvent) : Prop :=
  spaced_ms (map time ns).

(** ** Sample inputs *)

Module Demo.

(** Five beats half a second apart, three onsets, ten RMS frames (a frame
    every half second). *)
Definition analysis : Analysis :=
  mkAnalysis [0; 1 # 2; 1; 3 # 2; 2]%Q [1 # 10; 6 # 10; 7 # 10]%Q
             [1; 5; 5; 5; 5; 1; 1; 1; 1; 1]%Q
             (fun t => Z.to_nat (Qfloor (t * 2))).

(** Two onsets within the same millisecond. *)
Definition dense_onsets : Analysis :=
  mkAnalysis [] [1 # 4000; 1 # 2000]%Q [1]%Q (fun _ => 0%nat).

Definition rng : Random.rng := Random.mkRng (fun n => Z.of_nat n * 7 + 3) 0.

End Demo.

(** ** Further sample inputs *)

Module Cases.

(** A beat grid with a single beat. *)
Definition one_beat : Analysis :=
  mkAnalysis [0]%Q [1 # 10]%Q [1]%Q (fun _ => 0%nat).

(** A signal of constant loudness. *)
Definition flat : Analysis :=
  mkAnalysis [0; 1 # 2; 1]%Q [1 # 4]%Q [2; 2; 2; 2]%Q
             (fun t => Z.to_nat (Qfloor (t * 2))).

(** Beats and onsets that map past the end of the RMS curve. *)
Definition stray : Analysis :=
  mkAnalysis [0; 1 # 2; 1]%Q [1 # 4]%Q [1]%Q (fun _ => 5%nat).

(** No onset at all. *)
Definition silent : Analysis :=
  mkAnalysis [0; 1 # 2]%Q [] [1; 2]%Q (fun _ => 0%nat).

(** Every beat above the 60th percentile of a curve that is mostly low. *)
Definition loud : Analysis :=
  mkAnalysis [1; 5 # 4; 3 # 2; 7 # 4]%Q [] [1; 1; 5; 5]%Q
             (fun t => Z.to_nat (Qfloor (t * 2))).

End Cases.

(** ** Facts about comparisons and lists *)

Module Facts.

Lemma Qltb_lt a b : Py.Qltb a b = true <-> (a < b)%Q.
Proof.
  unfold Py.Qltb. rewrite negb_true_iff. split; intros H.
  - apply Qnot_le_lt. intros Hle. apply Qle_bool_iff in Hle. congruence.
  - destruct (Qle_bool b a) eqn:E; auto.
    apply Qle_bool_iff in E. exfalso. revert E. now apply Qlt_not_le.
Qed.

Lemma Qle_bool_false a b : Qle_bool a b = false <-> (b < a)%Q.
Proof.
  rewrite <- Qltb_lt. unfold Py.Qltb. now rewrite negb_true_iff.
Qed.

Lemma len_app {A} (l1 l2 : list A) : Py.len (l1 ++ l2) = Py.len l1 + Py.len l2.
Proof. unfold Py.len. rewrite length_app. lia. Qed.

Lemma len_repeat {A} (x : A) n : Py.len (repeat x n) = Z.of_nat n.
Proof. unfold Py.len. now rewrite repeat_length. Qed.

Lemma range_length n : length (Py.range n) = Z.to_nat n.
Proof. unfold Py.range. now rewrite length_map, length_seq. Qed.

Lemma range_nonpos n : n <= 0 -> Py.range n = [].
Proof.
  intros H. unfold Py.range. replace (Z.to_nat n) with 0%nat by lia.
  reflexivity.
Qed.

Lemma in_range n x : In x (Py.range n) <-> 0 <= x < n.
Proof.
  unfold Py.range. rewrite in_map_iff. split.
  - intros (k & <- & Hk). apply in_seq in Hk. lia.
  - intros H. exists (Z.to_nat x). split; [lia|]. apply in_seq. lia.
Qed.

Lemma range_NoDup n : NoDup (Py.range n).
Proof.
  unfold Py.range. apply Finite.Injective_map_NoDup.
  - intros x y. apply Nat2Z.inj.
  - apply seq_NoDup.
Qed.

Lemma mem_In x l : Py.mem x l = true <-> In x l.
Proof.
  unfold Py.mem. rewrite existsb_exists. split.
  - intros (y & Hy & E). apply Z.eqb_eq in E. now subst.
  - intros H. exists x. split; auto. apply Z.eqb_refl.
Qed.

Lemma in_remove x y l : NoDup l -> In x (Py.remove y l) -> In x l /\ x <> y.
Proof.
  induction l as [|z l IH]; simpl; [tauto|].
  intros Hnd Hin. inversion Hnd as [|? ? Hz Hnd']; subst.
  destruct (Z.eqb_spec y z) as [->|Hne].
  - split; [now right|]. intros ->. contradiction.
  - destruct Hin as [->|Hin]; [split; [now left|congruence]|].
    destruct (IH Hnd' Hin). split; [now right|assumption].
Qed.

Lemma remove_length x l :
  In x l -> S (length (Py.remove x l)) = length l.
Proof.
  induction l as [|z l IH]; simpl; [tauto|].
  destruct (Z.eqb_spec x z) as [->|Hne]; [reflexivity|].
  intros [E|Hin]; [congruence|]. simpl. now rewrite IH.
Qed.

Lemma StronglySorted_app {A} (R : A -> A -> Prop) l1 l2 :
  StronglySorted R l1 -> StronglySorted R l2 ->
  (forall x y, In x l1 -> In y l2 -> R x y) ->
  StronglySorted R (l1 ++ l2).
Proof.
  induction l1 as [|a l1 IH]; simpl; intros H1 H2 H; auto.
  inversion H1; subst. constructor.
  - apply IH; auto.
  - apply Forall_app. split; [assumption|].
    apply Forall_forall. intros y Hy. apply H; auto.
Qed.

Lemma StronglySorted_app_inv {A} (R : A -> A -> Prop) l1 l2 :
  StronglySorted R (l1 ++ l2) ->
  StronglySorted R l1 /\ StronglySorted R l2 /\
  (forall x y, In x l1 -> In y l2 -> R x y).
Proof.
  induction l1 as [|a l1 IH]; simpl; intros H.
  - repeat split; [constructor|assumption|contradiction].
  - inversion H as [|? ? Hs Hf]; subst.
    destruct (IH Hs) as (H1 & H2 & H3).
    apply Forall_app in Hf. destruct Hf as [Hf1 Hf2].
    repeat split; auto.
    + constructor; assumption.
    + intros x y [->|Hx] Hy; [|now apply H3].
      rewrite Forall_forall in Hf2. now apply Hf2.
Qed.

Lemma StronglySorted_filter {A} (R : A -> A -> Prop) (p : A -> bool) l :
  StronglySorted R l -> StronglySorted R (filter p l).
Proof.
  induction 1 as [|a l Hs IH Hf]; simpl; [constructor|].
  destruct (p a); [|assumption].
  constructor; [assumption|].
  rewrite Forall_forall in *. intros x Hx. apply filter_In in Hx.
  apply Hf, Hx.
Qed.

Lemma StronglySorted_map {A B} (R : A -> A -> Prop) (R' : B -> B -> Prop)
    (f : A -> B) l :
  (forall x y, R x y -> R' (f x) (f y)) ->
  StronglySorted R l -> StronglySorted R' (map f l).
Proof.
  intros Hf. induction 1 as [|a l Hs IH Ha]; simpl; constructor; auto.
  rewrite Forall_forall in *. intros y Hy.
  apply in_map_iff in Hy. destruct Hy as (x & <- & Hx). auto.
Qed.

Lemma Sorted_Qle_strong l : Sorted Qle l -> StronglySorted Qle l.
Proof.
  apply Sorted_StronglySorted. intros x y z. apply Qle_trans.
Qed.

Lemma Sorted_Qlt_strong l : Sorted Qlt l -> StronglySorted Qlt l.
Proof.
  apply Sorted_StronglySorted. intros x y z. apply Qlt_trans.
Qed.

Lemma StronglySorted_nth {A} (R : A -> A -> Prop) l d i j :
  StronglySorted R l -> (i < j)%nat -> (j < length l)%nat ->
  R (nth i l d) (nth j l d).
Proof.
  intros H. revert i j. induction H as [|a l Hs IH Ha]; intros i j Hij Hj.
  - simpl in Hj. lia.
  - destruct j as [|j]; [lia|]. simpl in Hj.
    destruct i as [|i]; simpl.
    + rewrite Forall_forall in Ha. apply Ha, nth_In. lia.
    + apply IH; lia.
Qed.

Lemma filter_all {A} (p : A -> bool) l :
  (forall x, In x l -> p x = true) -> filter p l = l.
Proof.
  induction l as [|x l IH]; intros H; [reflexivity|].
  cbn [filter]. rewrite (H x) by now left.
  f_equal. apply IH. intros y Hy. apply H. now right.
Qed.

End Facts.

(** ** Properties of the stream section detector *)

Module ExpertSections.
Import Expert.

Lemma scan_app D l1 l2 i st :
  scan D (l1 ++ l2) i st = scan D l2 (i + Py.len l1) (scan D l1 i st).
Proof.
  revert i st. induction l1 as [|b l1 IH]; intros i st; simpl.
  - unfold Py.len; simpl. now rewrite Z.add_0_r.
  - rewrite IH. f_equal. unfold Py.len. simpl length. lia.
Qed.

Lemma scan_low_closed D n i secs :
  scan D (repeat false n) i (secs, -1) = (secs, -1).
Proof.
  revert i. induction n as [|n IH]; intros i; simpl; auto.
Qed.

Lemma scan_high_open D n i secs c :
  c <> -1 ->
  scan D (repeat true n) i (secs, c) = (secs, c).
Proof.
  intros Hc. revert i. induction n as [|n IH]; intros i; simpl; auto.
  destruct (Z.eqb_spec c (-1)); [contradiction|]. simpl. apply IH.
Qed.

Lemma scan_high_closed D n i secs :
  0 <= i ->
  scan D (repeat true (S n)) i (secs, -1) = (secs, i).
Proof.
  intros Hi. simpl. apply scan_high_open. lia.
Qed.

Lemma scan_low_open D n i secs c :
  c <> -1 ->
  scan D (repeat false (S n)) i (secs, c) =
  ((if Qle_bool D (inject_Z (i - c)) then secs ++ [(c, i)] else secs), -1).
Proof.
  intros Hc. simpl.
  destruct (Z.eqb_spec c (-1)); [contradiction|]. simpl.
  apply scan_low_closed.
Qed.

(** The detector on [i] low beats, [L >= 1] high beats, [m] low beats. *)
Lemma single_run_sections D (i L m : nat) :
  (1 <= L)%nat ->
  let flags := repeat false i ++ repeat true L ++ repeat false m in
  find_stream_sections flags (Py.len flags) D =
  if Qle_bool D (inject_Z (Z.of_nat L))
  then [(Z.of_nat i, Z.of_nat i + Z.of_nat L)] else [].
Proof.
  intros HL flags. unfold find_stream_sections, flags.
  rewrite !scan_app, scan_low_closed, !Facts.len_repeat, Z.add_0_l.
  destruct L as [|L]; [lia|].
  rewrite scan_high_closed by lia.
  unfold Py.len. rewrite !length_app, !repeat_length.
  destruct m as [|m].
  - cbn [repeat scan].
    destruct (Z.eqb_spec (Z.of_nat i) (-1)) as [E|_]; [lia|].
    cbn [negb andb].
    replace (Z.of_nat (i + (S L + 0)) - Z.of_nat i) with (Z.of_nat (S L)) by lia.
    replace (Z.of_nat (i + (S L + 0))) with (Z.of_nat i + Z.of_nat (S L)) by lia.
    reflexivity.
  - rewrite scan_low_open by lia.
    replace (Z.of_nat i + Z.of_nat (S L) - Z.of_nat i) with (Z.of_nat (S L)) by lia.
    cbn [Z.eqb negb andb].
    reflexivity.
Qed.

(** C1. A flag sequence with a single run of [L >= 1] high-energy beats that
    starts at index [i] ([m] low beats follow, [m = 0] being the run still
    open at the end of the song) yields exactly the section [(i, i + L)]
    when [L] reaches the minimum stream duration [D] ([L = D] included),
    and no section when [L < D]. *)
Theorem single_run_detected (D : Q) (i L m : nat) :
  (1 <= L)%nat ->
  let flags := repeat false i ++ repeat true L ++ repeat false m in
  ((D <= inject_Z (Z.of_nat L))%Q ->
   find_stream_sections flags (Py.len flags) D =
   [(Z.of_nat i, Z.of_nat i + Z.of_nat L)]) /\
  ((inject_Z (Z.of_nat L) < D)%Q ->
   find_stream_sections flags (Py.len flags) D = []).
Proof.
  intros HL flags. unfold flags. rewrite (single_run_sections D i L m HL).
  split; intros H.
  - apply Qle_bool_iff in H. now rewrite H.
  - apply Facts.Qle_bool_false in H. now rewrite H.
Qed.

(** The run closes exactly at the threshold: four high beats, [D = 4]. *)
Lemma single_run_detected_witness :
  (1 <= 4)%nat /\
  find_stream_sections [false; true; true; true; true; false] 6 4 = [(1, 5)] /\
  find_stream_sections [false; false; true; true; true; true] 6 4 = [(2, 6)].
Proof.
  split; [lia|]. split.
  - apply (single_run_detected 4 1 4 1); [lia|]. unfold Qle. simpl. lia.
  - apply (single_run_detected 4 2 4 0); [lia|]. unfold Qle. simpl. lia.
Defined.

End ExpertSections.

(** ** The note timestamp generator *)

Module ExpertTimestamps.
Import Expert.

Lemma in_stream_iff secs i : in_stream secs i = true <-> in_some_section secs i.
Proof.
  unfold in_stream, in_some_section. rewrite existsb_exists. split.
  - intros ([s e] & Hin & H). exists s, e. split; [assumption|]. lia.
  - intros (s & e & Hin & H). exists (s, e). split; [assumption|]. lia.
Qed.

Section Loop.
Variables (beats onsets : list Q) (secs : list StreamSection) (sub : Z).

Lemma beat_loop_spec fuel c nts bfs :
  (length beats - 1 - c <= fuel)%nat ->
  beat_loop fuel beats onsets secs sub (Z.of_nat c) nts bfs =
  (nts ++ flat_map (interval_times beats onsets secs sub)
                   (map Z.of_nat (seq c (length beats - 1 - c))),
   bfs ++ flat_map (interval_flags secs sub)
                   (map Z.of_nat (seq c (length beats - 1 - c)))).
Proof.
  revert c nts bfs. induction fuel as [|fuel IH]; intros c nts bfs Hf.
  - replace (length beats - 1 - c)%nat with 0%nat by lia.
    cbn. now rewrite !app_nil_r.
  - cbn [beat_loop].
    destruct (Z.ltb_spec (Z.of_nat c) (Py.len beats - 1)) as [Hlt|Hge].
    + assert (E : (length beats - 1 - c = S (length beats - 1 - S c))%nat)
        by (unfold Py.len in Hlt; lia).
      rewrite E. cbn [seq map flat_map].
      unfold interval_times at 1, interval_flags at 1.
      replace (Z.of_nat c + 1) with (Z.of_nat (S c)) by lia.
      destruct (in_stream secs (Z.of_nat c));
        rewrite IH by lia; now rewrite <- !app_assoc.
    + replace (length beats - 1 - c)%nat with 0%nat
        by (unfold Py.len in Hge; lia).
      cbn. now rewrite !app_nil_r.
Qed.

(** The fuel of [note_timestamps_of] covers every beat interval: the loop
    stops on its own condition. *)
Lemma note_timestamps_fuel :
  note_timestamps_of beats onsets secs sub =
  (flat_map (interval_times beats onsets secs sub) (interval_indices beats),
   flat_map (interval_flags secs sub) (interval_indices beats)).
Proof.
  unfold note_timestamps_of, interval_indices.
  pose proof (beat_loop_spec (length beats) 0 [] []) as H.
  change (Z.of_nat 0) with 0 in H. rewrite H by lia.
  now rewrite Nat.sub_0_r.
Qed.

Lemma interval_lengths i :
  length (interval_times beats onsets secs sub i) =
  length (interval_flags secs sub i).
Proof.
  unfold interval_times, interval_flags.
  destruct (in_stream secs i); [|reflexivity]. now rewrite !length_map.
Qed.

Lemma timestamps_flags_length :
  length (fst (note_timestamps_of beats onsets secs sub)) =
  length (snd (note_timestamps_of beats onsets secs sub)).
Proof.
  rewrite note_timestamps_fuel. cbn [fst snd].
  induction (interval_indices beats) as [|i l IH]; [reflexivity|].
  cbn [flat_map]. rewrite !length_app, interval_lengths. now rewrite IH.
Qed.

End Loop.

(** The first onset that passes the interval test is the earliest one when
    the onsets are in ascending order. *)
Lemma first_onset_earliest onsets lo hi t rest :
  Sorted Qle onsets ->
  filter (fun t => Qle_bool lo t && Py.Qltb t hi) onsets = t :: rest ->
  earliest_onset_in onsets lo hi t.
Proof.
  intros Hs E.
  assert (Hin : In t (filter (fun t => Qle_bool lo t && Py.Qltb t hi) onsets))
    by (rewrite E; now left).
  apply filter_In in Hin. destruct Hin as [Hin Hp].
  apply andb_true_iff in Hp. destruct Hp as [H1 H2].
  apply Qle_bool_iff in H1. apply Facts.Qltb_lt in H2.
  repeat split; auto.
  intros t' Hin' Hlo Hhi.
  assert (Hf : In t' (t :: rest)).
  { rewrite <- E. apply filter_In. split; [assumption|].
    apply andb_true_iff. split.
    - now apply Qle_bool_iff.
    - now apply Facts.Qltb_lt. }
  assert (Hss : StronglySorted Qle (t :: rest)).
  { rewrite <- E. apply Facts.StronglySorted_filter.
    now apply Facts.Sorted_Qle_strong. }
  destruct Hf as [<-|Hf]; [apply Qle_refl|].
  inversion Hss as [|? ? _ Hall]; subst.
  rewrite Forall_forall in Hall. now apply Hall.
Qed.

Lemma no_onset_when_empty onsets lo hi :
  filter (fun t => Qle_bool lo t && Py.Qltb t hi) onsets = [] ->
  no_onset_in onsets lo hi.
Proof.
  intros E t' Hin [Hlo Hhi].
  assert (Hf : In t' (filter (fun t => Qle_bool lo t && Py.Qltb t hi) onsets)).
  { apply filter_In. split; [assumption|].
    apply andb_true_iff. split.
    - now apply Qle_bool_iff.
    - now apply Facts.Qltb_lt. }
  rewrite E in Hf. contradiction.
Qed.

(** C2. The note timestamp generator handles the beat intervals in
    increasing index order, one chunk of output per interval. For an
    interval inside a stream section the chunk has one timestamp per
    [k] in [0, S), at [start + k * (end - start) / S], and only [k = 0] is
    flagged as downbeat. For any other interval the chunk is a single
    downbeat timestamp: the earliest onset in [start, end) when there is
    one, and [start] otherwise. The onsets are in ascending order, as the
    analysis returns them. *)
Theorem note_timestamps_per_interval (beats onsets : list Q)
    (secs : list StreamSection) (sub : Z) :
  Sorted Qle onsets ->
  exists chunks : list (list Q * list bool),
    length chunks = (length beats - 1)%nat /\
    note_timestamps_of beats onsets secs sub =
      (flat_map fst chunks, flat_map snd chunks) /\
    forall idx ts fs, nth_error chunks idx = Some (ts, fs) ->
      let start_time := beat_at beats (Z.of_nat idx) in
      let end_time := beat_at beats (Z.of_nat idx + 1) in
      (in_some_section secs (Z.of_nat idx) ->
         Py.len ts = Z.max 0 sub /\
         ts = map (fun k => (start_time + inject_Z k * (end_time - start_time)
                                          / inject_Z sub)%Q)
                  (Py.range sub) /\
         fs = map (fun k => k =? 0) (Py.range sub)) /\
      (~ in_some_section secs (Z.of_nat idx) ->
         fs = [true] /\
         exists t, ts = [t] /\
           (earliest_onset_in onsets start_time end_time t \/
            (no_onset_in onsets start_time end_time /\ t = start_time))).
Proof.
  intros Hs.
  exists (map (fun i => (interval_times beats onsets secs sub i,
                         interval_flags secs sub i))
              (interval_indices beats)).
  split; [|split].
  - unfold interval_indices. now rewrite !length_map, length_seq.
  - rewrite note_timestamps_fuel. f_equal.
    + induction (interval_indices beats) as [|i l IH]; [reflexivity|].
      cbn [map flat_map fst]. now rewrite IH.
    + induction (interval_indices beats) as [|i l IH]; [reflexivity|].
      cbn [map flat_map snd]. now rewrite IH.
  - intros idx ts fs Hnth start_time end_time.
    unfold interval_indices in Hnth. rewrite map_map in Hnth.
    rewrite nth_error_map in Hnth.
    destruct (nth_error (seq 0 (length beats - 1)) idx) as [k|] eqn:Ek;
      [|discriminate].
    assert (Hk : k = idx).
    { pose proof (nth_error_nth _ _ 0%nat Ek) as Hn.
      assert (idx < length (seq 0 (length beats - 1)))%nat
        by (apply nth_error_Some; congruence).
      rewrite length_seq in H. rewrite seq_nth in Hn by assumption. lia. }
    subst k. cbn in Hnth. injection Hnth as <- <-.
    unfold interval_times, interval_flags. fold start_time end_time.
    split.
    + intros Hin. apply in_stream_iff in Hin. rewrite Hin.
      split; [|split; reflexivity].
      unfold Py.len. rewrite length_map, Facts.range_length. lia.
    + intros Hout.
      destruct (in_stream secs (Z.of_nat idx)) eqn:E.
      { exfalso. apply Hout. now apply in_stream_iff. }
      split; [reflexivity|].
      destruct (filter _ onsets) as [|t rest] eqn:Ef.
      * exists start_time. split; [reflexivity|]. right.
        split; [|reflexivity]. now apply no_onset_when_empty.
      * exists t. split; [reflexivity|]. left.
        now apply (first_onset_earliest onsets _ _ t rest).
Qed.

End ExpertTimestamps.

(** ** Milliseconds and random choices *)

Module Basics.

Lemma int_mono x y : (x <= y)%Q -> Py.int x <= Py.int y.
Proof.
  destruct x as [a p], y as [b q]. unfold Qle, Py.int. cbn [Qnum Qden].
  intros H.
  rewrite <- (Z.quot_mul_cancel_r a (Zpos p) (Zpos q)) by lia.
  rewrite <- (Z.quot_mul_cancel_r b (Zpos q) (Zpos p)) by lia.
  rewrite (Z.mul_comm (Zpos q) (Zpos p)).
  apply Z.quot_le_mono; lia.
Qed.

Lemma ms_mono x y : (x <= y)%Q -> ms x <= ms y.
Proof.
  intros H. unfold ms. apply int_mono.
  apply Qmult_le_compat_r; [assumption|]. unfold Qle; simpl; lia.
Qed.

Lemma choice_In {A} (l : list A) g x g' :
  Random.choice l g = Py.Ok (x, g') -> In x l.
Proof.
  unfold Random.choice. destruct l as [|a l]; [discriminate|].
  destruct (Random.next g) as [w g1].
  destruct (nth_error (a :: l) _) as [y|] eqn:E; [|discriminate].
  intros H. injection H as <- _. eapply nth_error_In, E.
Qed.

Lemma choice_total {A} (l : list A) g :
  l <> [] -> exists x g', Random.choice l g = Py.Ok (x, g').
Proof.
  intros Hl. unfold Random.choice. destruct l as [|a l]; [congruence|].
  destruct (Random.next g) as [w g1].
  destruct (nth_error (a :: l) _) as [y|] eqn:E; [now exists y, g1|].
  exfalso. apply nth_error_None in E.
  assert (0 < Py.len (a :: l)) by (unfold Py.len; simpl length; lia).
  pose proof (Z.mod_pos_bound w (Py.len (a :: l)) H) as Hb.
  unfold Py.len in *. lia.
Qed.

Lemma choice_nil {A} g : @Random.choice A [] g = Py.Raise Py.IndexError.
Proof. reflexivity. Qed.

(** An order-preserving selection from the onsets keeps any ordering. *)
Lemma kept_sorted (R : Q -> Q -> Prop) (p : Q * Q -> bool) l ss :
  StronglySorted R l ->
  StronglySorted R (map fst (filter p (combine l ss))).
Proof.
  intros H. revert ss. induction H as [|a l Hs IH Ha]; intros ss.
  - constructor.
  - destruct ss as [|s ss]; [constructor|]. cbn [combine filter].
    destruct (p (a, s)); [|apply IH].
    cbn [map fst]. constructor; [apply IH|].
    rewrite Forall_forall in *. intros x Hx.
    apply in_map_iff in Hx. destruct Hx as ([x' s'] & <- & Hx).
    apply filter_In in Hx. destruct Hx as [Hx _].
    apply in_combine_l in Hx. now apply Ha.
Qed.

End Basics.

(** ** The no-repeat placement of the simple generators *)

Module NoRepeat.

Lemma possible_sound lanes last x :
  In x (possible lanes last) ->
  0 <= x < lanes /\ (2 <= lanes -> x <> last).
Proof.
  unfold possible.
  destruct (Py.mem last (Py.range lanes)) eqn:Em; cbn [andb].
  - destruct (1 <? Py.len (Py.range lanes)) eqn:El.
    + intros H. apply Facts.in_remove in H; [|apply Facts.range_NoDup].
      destruct H as [H Hne]. apply Facts.in_range in H. tauto.
    + intros H. apply Facts.in_range in H. split; [assumption|].
      intros H2. apply Z.ltb_ge in El. unfold Py.len in El.
      rewrite Facts.range_length in El. lia.
  - intros H. split; [now apply Facts.in_range|].
    intros _ ->. apply Facts.mem_In in H. congruence.
Qed.

Lemma possible_nonempty lanes last : 1 <= lanes -> possible lanes last <> [].
Proof.
  intros H. unfold possible.
  assert (Hr : (1 <= length (Py.range lanes))%nat)
    by (rewrite Facts.range_length; lia).
  destruct (Py.mem last (Py.range lanes)) eqn:Em; cbn [andb].
  - destruct (1 <? Py.len (Py.range lanes)) eqn:El.
    + apply Z.ltb_lt in El. unfold Py.len in El.
      apply Facts.mem_In in Em. apply Facts.remove_length in Em.
      intros E. rewrite E in Em. simpl in Em. lia.
    + intros E. rewrite E in Hr. simpl in Hr. lia.
  - intros E. rewrite E in Hr. simpl in Hr. lia.
Qed.

Lemma possible_none lanes last : lanes <= 0 -> possible lanes last = [].
Proof.
  intros H. unfold possible. rewrite Facts.range_nonpos by assumption.
  reflexivity.
Qed.

Lemma place_step lanes t rest notes last g :
  place_no_repeat lanes (t :: rest) notes last g =
  (' (chosen_lane, g') <- Random.choice (possible lanes last) g ;;
   place_no_repeat lanes rest (notes ++ [mkNote (ms t) chosen_lane])
                   chosen_lane g').
Proof. reflexivity. Qed.

Lemma place_spec lanes ts notes last g res :
  place_no_repeat lanes ts notes last g = Py.Ok res ->
  exists news, res = notes ++ news /\ placed lanes last ts news.
Proof.
  revert notes last g. induction ts as [|t ts IH]; intros notes last g H.
  - cbn in H. injection H as <-. exists []. now rewrite app_nil_r.
  - rewrite place_step in H. unfold Py.bind in H.
    destruct (Random.choice (possible lanes last) g) as [[c g']|e] eqn:Ec;
      [|discriminate].
    apply Basics.choice_In in Ec. apply possible_sound in Ec.
    destruct (IH _ _ _ H) as (news & -> & Hp).
    exists (mkNote (ms t) c :: news). split.
    + now rewrite <- app_assoc.
    + cbn. tauto.
Qed.

Lemma place_total lanes ts notes last g :
  1 <= lanes -> exists res, place_no_repeat lanes ts notes last g = Py.Ok res.
Proof.
  intros Hl. revert notes last g.
  induction ts as [|t ts IH]; intros notes last g.
  - now exists notes.
  - rewrite place_step.
    destruct (Basics.choice_total (possible lanes last) g
                (possible_nonempty lanes last Hl)) as (c & g' & ->).
    cbn. apply IH.
Qed.

Lemma place_no_lanes lanes t ts notes last g :
  lanes <= 0 ->
  place_no_repeat lanes (t :: ts) notes last g = Py.Raise Py.IndexError.
Proof.
  intros Hl. rewrite place_step, possible_none by assumption. reflexivity.
Qed.

Lemma placed_times lanes last ts news :
  placed lanes last ts news -> map time news = map ms ts.
Proof.
  revert last news. induction ts as [|t ts IH]; intros last [|n news] H;
    cbn in H; try contradiction; [reflexivity|].
  destruct H as (Ht & _ & _ & H). cbn. rewrite Ht. f_equal. eapply IH, H.
Qed.

Lemma placed_in_range lanes last ts news :
  placed lanes last ts news -> lanes_in_range lanes news.
Proof.
  revert last news. induction ts as [|t ts IH]; intros last [|n news] H;
    cbn in H; try contradiction; [constructor|].
  destruct H as (_ & Hr & _ & H). constructor; [assumption|]. eapply IH, H.
Qed.

Lemma placed_adjacent lanes last ts news :
  2 <= lanes -> placed lanes last ts news -> adjacent_lanes_differ news.
Proof.
  intros Hl. revert last news.
  induction ts as [|t ts IH]; intros last [|n news] H;
    cbn in H; try contradiction.
  - intros i n1 n2 H1. destruct i; discriminate.
  - destruct H as (_ & _ & _ & H).
    intros [|i] n1 n2 H1 H2.
    + cbn in H1. injection H1 as <-.
      destruct ts as [|t' ts]; destruct news as [|n' news];
        cbn in H; try contradiction; try discriminate.
      cbn in H2. injection H2 as <-.
      destruct H as (_ & _ & Hne & _). intros E. apply Hne; auto.
    + cbn in H1, H2. exact (IH _ _ H i n1 n2 H1 H2).
Qed.

Lemma placed_nonempty lanes last t ts news :
  placed lanes last (t :: ts) news -> news <> [].
Proof. destruct news; cbn; [tauto|discriminate]. Qed.

End NoRepeat.

(** ** The percentile threshold *)

Module NumpyFacts.
Import Numpy.

Lemma insert_perm x l : Permutation (insert x l) (x :: l).
Proof.
  induction l as [|y l IH]; cbn; [reflexivity|].
  destruct (Qle_bool x y); [reflexivity|].
  rewrite IH. apply perm_swap.
Qed.

Lemma sort_perm l : Permutation (sort l) l.
Proof.
  induction l as [|x l IH]; cbn; [reflexivity|].
  rewrite insert_perm. now constructor.
Qed.

Lemma insert_sorted x l :
  StronglySorted Qle l -> StronglySorted Qle (insert x l).
Proof.
  induction 1 as [|y l Hs IH Hy]; cbn.
  - repeat constructor.
  - destruct (Qle_bool x y) eqn:E.
    + apply Qle_bool_iff in E. constructor; [now constructor|].
      constructor; [assumption|].
      rewrite Forall_forall in *. intros z Hz.
      eapply Qle_trans; [exact E|]. now apply Hy.
    + apply Facts.Qle_bool_false in E. constructor; [assumption|].
      rewrite Forall_forall in *. intros z Hz.
      apply (Permutation_in _ (insert_perm x l)) in Hz.
      destruct Hz as [<-|Hz]; [now apply Qlt_le_weak|now apply Hy].
Qed.

Lemma sort_sorted l : StronglySorted Qle (sort l).
Proof.
  induction l as [|x l IH]; cbn; [constructor|]. now apply insert_sorted.
Qed.

Lemma sort_length l : length (sort l) = length l.
Proof. apply Permutation_length, sort_perm. Qed.

Lemma sorted_nth_le l i j :
  StronglySorted Qle l -> (i <= j)%nat -> (j < length l)%nat ->
  (nth i l 0 <= nth j l 0)%Q.
Proof.
  intros Hs Hij Hj. destruct (Nat.eq_dec i j) as [->|Hne].
  - apply Qle_refl.
  - apply Facts.StronglySorted_nth; [assumption|lia|assumption].
Qed.

Lemma percentile_unfold a q :
  (0 <= q)%Q -> (q <= 100)%Q ->
  percentile a q =
  Py.Ok (let arr := sort a in
         let n := Py.len arr in
         let virtual_index := (inject_Z (n - 1) * (q / 100))%Q in
         let previous := Z.max 0 (Z.min (n - 1) (Qfloor virtual_index)) in
         let next := Z.max 0 (Z.min (n - 1) (Qfloor virtual_index + 1)) in
         let gamma := (virtual_index - inject_Z (Qfloor virtual_index))%Q in
         let lo := nth (Z.to_nat previous) arr 0%Q in
         let hi := nth (Z.to_nat next) arr 0%Q in
         (lo + (hi - lo) * gamma)%Q).
Proof.
  intros H0 H1. unfold percentile.
  apply Qle_bool_iff in H0, H1. now rewrite H0, H1.
Qed.

Lemma virtual_index_bounds n q :
  1 <= n -> (0 <= q)%Q -> (q <= 100)%Q ->
  (0 <= inject_Z (n - 1) * (q / 100))%Q /\
  (inject_Z (n - 1) * (q / 100) <= inject_Z (n - 1))%Q.
Proof.
  intros Hn H0 H1.
  assert (Hm : (0 <= inject_Z (n - 1))%Q).
  { change 0%Q with (inject_Z 0). rewrite <- Zle_Qle. lia. }
  assert (Hq0 : (0 <= q / 100)%Q) by (apply Qle_shift_div_l; lra).
  assert (Hq1 : (q / 100 <= 1)%Q) by (apply Qle_shift_div_r; lra).
  split; nra.
Qed.

(** For a valid [q] the percentile of a non-empty array is at most one of
    its elements. *)
Lemma percentile_le_some a q :
  a <> [] -> (0 <= q)%Q -> (q <= 100)%Q ->
  exists v x, percentile a q = Py.Ok v /\ In x a /\ (v <= x)%Q.
Proof.
  intros Ha H0 H1. rewrite percentile_unfold by assumption.
  cbv zeta.
  set (arr := sort a). set (n := Py.len arr).
  assert (Hn : 1 <= n).
  { unfold n, arr, Py.len. rewrite sort_length.
    destruct a; [congruence|]. simpl length. lia. }
  destruct (virtual_index_bounds n q Hn H0 H1) as [Hv0 Hv1].
  set (vi := (inject_Z (n - 1) * (q / 100))%Q) in *.
  assert (Hf0 : 0 <= Qfloor vi).
  { change 0 with (Qfloor 0). now apply Qfloor_resp_le. }
  assert (Hf1 : Qfloor vi <= n - 1).
  { rewrite <- (Qfloor_Z (n - 1)). now apply Qfloor_resp_le. }
  pose proof (Qfloor_le vi) as Hg0. pose proof (Qlt_floor vi) as Hg1.
  rewrite inject_Z_plus in Hg1.
  replace (Z.max 0 (Z.min (n - 1) (Qfloor vi))) with (Qfloor vi) by lia.
  set (f := Qfloor vi) in *.
  set (h := Z.max 0 (Z.min (n - 1) (f + 1))).
  assert (Hs : StronglySorted Qle arr) by apply sort_sorted.
  assert (Hlh : (nth (Z.to_nat f) arr 0 <= nth (Z.to_nat h) arr 0)%Q).
  { apply sorted_nth_le; [assumption|unfold h; lia|].
    unfold n, Py.len in *. unfold h. lia. }
  eexists. exists (nth (Z.to_nat h) arr 0%Q).
  split; [reflexivity|]. split.
  - apply (Permutation_in _ (sort_perm a)). apply nth_In.
    unfold n, Py.len in *. unfold h. fold arr. lia.
  - set (lo := nth (Z.to_nat f) arr 0%Q) in *.
    set (hi := nth (Z.to_nat h) arr 0%Q) in *.
    change (inject_Z 1) with 1%Q in Hg1. nra.
Qed.

(** At [q = 0] the percentile is the minimum. *)
Lemma percentile_0 a q :
  a <> [] -> (q == 0)%Q ->
  exists v, percentile a q = Py.Ok v /\ forall x, In x a -> (v <= x)%Q.
Proof.
  intros Ha Hq. rewrite percentile_unfold by lra.
  cbv zeta.
  set (arr := sort a). set (n := Py.len arr).
  assert (Hn : 1 <= n).
  { unfold n, arr, Py.len. rewrite sort_length.
    destruct a; [congruence|]. simpl length. lia. }
  assert (Hvi : (inject_Z (n - 1) * (q / 100) == 0)%Q).
  { rewrite Hq. field. }
  set (vi := (inject_Z (n - 1) * (q / 100))%Q) in *.
  assert (Hf : Qfloor vi = 0) by (now rewrite Hvi).
  rewrite Hf.
  replace (Z.max 0 (Z.min (n - 1) 0)) with 0 by lia.
  eexists. split; [reflexivity|].
  intros x Hx. apply (Permutation_in _ (Permutation_sym (sort_perm a))) in Hx.
  fold arr in Hx. destruct (In_nth _ _ 0%Q Hx) as (j & Hj & <-).
  assert (Hs : StronglySorted Qle arr) by apply sort_sorted.
  pose proof (sorted_nth_le arr 0 j Hs ltac:(lia) Hj) as H0j.
  change (Z.to_nat 0) with 0%nat.
  set (lo := nth 0 arr 0%Q) in *.
  set (hi := nth (Z.to_nat (Z.max 0 (Z.min (n - 1) (0 + 1)))) arr 0%Q).
  assert (Hg : (vi - inject_Z 0 == 0)%Q) by (rewrite Hvi; reflexivity).
  rewrite Hg. lra.
Qed.

(** At [q = 100] the percentile is the maximum. *)
Lemma percentile_100 a q :
  a <> [] -> (q == 100)%Q ->
  exists v, percentile a q = Py.Ok v /\
    (forall x, In x a -> (x <= v)%Q) /\ exists m, In m a /\ (v == m)%Q.
Proof.
  intros Ha Hq. rewrite percentile_unfold by lra.
  cbv zeta.
  set (arr := sort a). set (n := Py.len arr).
  assert (Hn : 1 <= n).
  { unfold n, arr, Py.len. rewrite sort_length.
    destruct a; [congruence|]. simpl length. lia. }
  assert (Hvi : (inject_Z (n - 1) * (q / 100) == inject_Z (n - 1))%Q).
  { rewrite Hq. field. }
  set (vi := (inject_Z (n - 1) * (q / 100))%Q) in *.
  assert (Hf : Qfloor vi = n - 1) by (rewrite Hvi; apply Qfloor_Z).
  rewrite Hf.
  replace (Z.max 0 (Z.min (n - 1) (n - 1))) with (n - 1) by lia.
  replace (Z.max 0 (Z.min (n - 1) (n - 1 + 1))) with (n - 1) by lia.
  assert (Hg : (vi - inject_Z (n - 1) == 0)%Q) by (rewrite Hvi; ring).
  assert (Hlast : (Z.to_nat (n - 1) < length arr)%nat)
    by (unfold n, Py.len in *; lia).
  set (top := nth (Z.to_nat (n - 1)) arr 0%Q).
  assert (Hv : (top + (top - top) * (vi - inject_Z (n - 1)) == top)%Q)
    by (rewrite Hg; ring).
  eexists. split; [reflexivity|]. split.
  - intros x Hx.
    apply (Permutation_in _ (Permutation_sym (sort_perm a))) in Hx.
    fold arr in Hx. destruct (In_nth _ _ 0%Q Hx) as (j & Hj & <-).
    assert (Hs : StronglySorted Qle arr) by apply sort_sorted.
    rewrite Hv. apply sorted_nth_le; [assumption| |assumption].
    unfold n, Py.len in *. lia.
  - exists top. split; [|exact Hv].
    apply (Permutation_in _ (sort_perm a)). now apply nth_In.
Qed.

End NumpyFacts.

(** ** The difficulty filter *)

Module Difficulty.

Lemma take_valid {A} (arr : list A) (d : A) idx :
  Forall (fun i => (i < length arr)%nat) idx ->
  Py.take arr idx = Py.Ok (map (fun i => nth i arr d) idx).
Proof.
  induction 1 as [|i idx Hi _ IH]; [reflexivity|].
  cbn [Py.take map]. rewrite IH.
  destruct (nth_error arr i) as [x|] eqn:E.
  - now rewrite (nth_error_nth _ _ d E).
  - apply nth_error_None in E. lia.
Qed.

Lemma onset_strengths_valid a :
  onset_frames_valid a ->
  Py.take (rms a) (map (time_to_frames a) (onset_times a)) =
  Py.Ok (map (strength a) (onset_times a)).
Proof.
  intros H. rewrite (take_valid (rms a) 0%Q).
  - now rewrite map_map.
  - unfold onset_frames_valid in H. rewrite Forall_forall in *.
    intros i Hi. apply in_map_iff in Hi. destruct Hi as (t & <- & Ht). auto.
Qed.

Lemma keep_by_strength (f : Q -> Q) (p : Q -> bool) l :
  map fst (filter (fun '(t, s) => p s) (combine l (map f l))) =
  filter (fun t => p (f t)) l.
Proof.
  induction l as [|t l IH]; [reflexivity|].
  cbn [map combine filter]. destruct (p (f t)); cbn [map fst]; now rewrite IH.
Qed.

(** The filter on valid onset frames: a threshold on [strength]. *)
Lemma filter_onsets_valid a difficulty :
  onset_frames_valid a ->
  filter_onsets a difficulty =
  (strength_threshold <-
     Numpy.percentile (map (strength a) (onset_times a))
                      ((1 - difficulty) * 100)%Q ;;
   Py.Ok (filter (fun t => Qle_bool strength_threshold (strength a t))
                 (onset_times a))).
Proof.
  intros H. unfold filter_onsets. rewrite onset_strengths_valid by assumption.
  cbn [Py.bind].
  destruct (Numpy.percentile _ _) as [thr|e]; [|reflexivity].
  cbn [Py.bind]. f_equal.
  apply (keep_by_strength (strength a) (fun s => Qle_bool thr s)).
Qed.

(** Whatever the filter keeps is an order-preserving selection. *)
Lemma filter_onsets_selection a difficulty ts (R : Q -> Q -> Prop) :
  filter_onsets a difficulty = Py.Ok ts ->
  StronglySorted R (onset_times a) -> StronglySorted R ts.
Proof.
  unfold filter_onsets, Py.bind. intros H Hs.
  destruct (Py.take _ _) as [ss|e]; [|discriminate].
  destruct (Numpy.percentile _ _) as [thr|e]; [|discriminate].
  injection H as <-. now apply Basics.kept_sorted.
Qed.

Lemma strengths_nonempty a :
  onset_times a <> [] -> map (strength a) (onset_times a) <> [].
Proof. destruct (onset_times a); [congruence|discriminate]. Qed.

(** For a difficulty in [0, 1] the filter keeps an onset. *)
Lemma filter_onsets_nonempty a difficulty :
  (0 <= difficulty)%Q -> (difficulty <= 1)%Q ->
  onset_times a <> [] -> onset_frames_valid a ->
  exists t ts, filter_onsets a difficulty = Py.Ok (t :: ts).
Proof.
  intros H0 H1 Hne Hv. rewrite filter_onsets_valid by assumption.
  destruct (NumpyFacts.percentile_le_some
              (map (strength a) (onset_times a)) ((1 - difficulty) * 100)%Q
              (strengths_nonempty a Hne) ltac:(lra) ltac:(lra))
    as (v & x & -> & Hx & Hvx).
  cbn [Py.bind].
  apply in_map_iff in Hx. destruct Hx as (t & <- & Ht).
  assert (Hin : In t (filter (fun t => Qle_bool v (strength a t))
                             (onset_times a))).
  { apply filter_In. split; [assumption|]. now apply Qle_bool_iff. }
  destruct (filter _ (onset_times a)) as [|t0 ts]; [contradiction|].
  now exists t0, ts.
Qed.

(** C8. On a non-empty onset list (whose frames lie on the RMS curve),
    difficulty 1.0 keeps every detected onset, and difficulty 0.0 keeps
    exactly the onsets whose strength is at or above the strength of every
    onset, that is the maximum observed one. *)
Theorem difficulty_extremes (a : Analysis) :
  onset_times a <> [] -> onset_frames_valid a ->
  filter_onsets a 1 = Py.Ok (onset_times a) /\
  filter_onsets a 0 =
  Py.Ok (filter (fun t => forallb (fun t' => Qle_bool (strength a t')
                                                      (strength a t))
                                  (onset_times a))
                (onset_times a)).
Proof.
  intros Hne Hv. split.
  - rewrite filter_onsets_valid by assumption.
    destruct (NumpyFacts.percentile_0
                (map (strength a) (onset_times a)) ((1 - 1) * 100)%Q
                (strengths_nonempty a Hne) ltac:(reflexivity))
      as (v & -> & Hmin).
    cbn [Py.bind]. f_equal.
    apply Facts.filter_all. intros t Ht.
    apply Qle_bool_iff, Hmin. now apply in_map.
  - rewrite filter_onsets_valid by assumption.
    destruct (NumpyFacts.percentile_100
                (map (strength a) (onset_times a)) ((1 - 0) * 100)%Q
                (strengths_nonempty a Hne) ltac:(reflexivity))
      as (v & -> & Hmax & m & Hm & Hvm).
    cbn [Py.bind]. f_equal.
    apply filter_ext_in. intros t Ht.
    apply eq_true_iff_eq. rewrite Qle_bool_iff, forallb_forall. split.
    + intros Hvt t' Ht'. apply Qle_bool_iff.
      eapply Qle_trans; [|exact Hvt]. apply Hmax. now apply in_map.
    + intros Hall. rewrite Hvm.
      apply in_map_iff in Hm. destruct Hm as (t' & <- & Ht').
      apply Qle_bool_iff. now apply Hall.
Qed.

End Difficulty.

(** ** The simple generators *)

Module SimpleFacts.

Lemma smart_notes a difficulty lanes g bm :
  Smart.generate_smart_beatmap a difficulty lanes g = Py.Ok bm ->
  exists ts,
    (if 0 <? Py.len (onset_times a) then filter_onsets a difficulty
     else Py.Ok []) = Py.Ok ts /\
    placed lanes (-1) ts (notes bm).
Proof.
  unfold Smart.generate_smart_beatmap, Py.bind. intros H.
  destruct (if 0 <? Py.len (onset_times a) then _ else _) as [ts|e];
    [|discriminate].
  destruct (place_no_repeat lanes ts [] (-1) g) as [ns|e] eqn:Ep;
    [|discriminate].
  injection H as <-. cbn [notes].
  apply NoRepeat.place_spec in Ep. destruct Ep as (news & -> & Hp).
  now exists ts.
Qed.

Lemma configurable_notes a config g bm :
  Configurable.generate_configurable_beatmap a config g = Py.Ok bm ->
  exists ts,
    (if String.eqb (Configurable.get (Configurable.cfg_mode config)
                                     "chaotic"%string)
                   "smart"%string
        && (0 <? Py.len (onset_times a))
     then filter_onsets a (Configurable.get (Configurable.cfg_difficulty config) 1%Q)
     else Py.Ok (onset_times a)) = Py.Ok ts /\
    placed (Configurable.get (Configurable.cfg_lanes config) 4) (-1) ts
           (notes bm).
Proof.
  unfold Configurable.generate_configurable_beatmap, Py.bind. intros H.
  destruct (if _ && _ then _ else _) as [ts|e]; [|discriminate].
  destruct (place_no_repeat _ ts [] (-1) g) as [ns|e] eqn:Ep;
    [|discriminate].
  injection H as <-. cbn [notes].
  apply NoRepeat.place_spec in Ep. destruct Ep as (news & -> & Hp).
  now exists ts.
Qed.

Lemma smart_selection a difficulty ts (R : Q -> Q -> Prop) :
  (if 0 <? Py.len (onset_times a) then filter_onsets a difficulty
   else Py.Ok []) = Py.Ok ts ->
  StronglySorted R (onset_times a) -> StronglySorted R ts.
Proof.
  destruct (0 <? Py.len (onset_times a)).
  - apply Difficulty.filter_onsets_selection.
  - intros H _. injection H as <-. constructor.
Qed.

Lemma configurable_selection a (b : bool) difficulty ts (R : Q -> Q -> Prop) :
  (if b then filter_onsets a difficulty else Py.Ok (onset_times a))
  = Py.Ok ts ->
  StronglySorted R (onset_times a) -> StronglySorted R ts.
Proof.
  destruct b.
  - apply Difficulty.filter_onsets_selection.
  - intros H. now injection H as <-.
Qed.

(** Times of the placed notes are the milliseconds of the timestamps. *)
Lemma placed_sorted lanes last ts news :
  StronglySorted Qle ts -> placed lanes last ts news -> sorted_by_time news.
Proof.
  intros Hs Hp. unfold sorted_by_time.
  rewrite (NoRepeat.placed_times _ _ _ _ Hp).
  apply StronglySorted_Sorted.
  eapply Facts.StronglySorted_map; [|exact Hs]. apply Basics.ms_mono.
Qed.

(** C7. With at least two lanes, any two neighbouring notes of a simple
    generator (smart, or configurable in either mode) are on different
    lanes, for every state of the random source. *)
Theorem no_immediate_repeat (a : Analysis) (difficulty : Q) (lanes : Z)
    (config : Configurable.Config) (g : Random.rng) :
  2 <= lanes -> 2 <= Configurable.get (Configurable.cfg_lanes config) 4 ->
  (forall bm,
     Smart.generate_smart_beatmap a difficulty lanes g = Py.Ok bm ->
     adjacent_lanes_differ (notes bm)) /\
  (forall bm,
     Configurable.generate_configurable_beatmap a config g = Py.Ok bm ->
     adjacent_lanes_differ (notes bm)).
Proof.
  intros Hl Hc. split.
  - intros bm H. apply smart_notes in H. destruct H as (ts & _ & Hp).
    eapply NoRepeat.placed_adjacent; [|exact Hp]. exact Hl.
  - intros bm H. apply configurable_notes in H.
    destruct H as (ts & _ & Hp).
    eapply NoRepeat.placed_adjacent; [|exact Hp]. exact Hc.
Qed.

(** C10. In smart mode, for a difficulty in [0, 1] and a non-empty onset
    list (whose frames lie on the RMS curve) the filter keeps at least one
    onset, so with at least one lane both simple generators return a beatmap
    with at least one note. *)
Theorem smart_mode_keeps_a_note (a : Analysis) (difficulty : Q) (lanes : Z)
    (g : Random.rng) :
  (0 <= difficulty)%Q -> (difficulty <= 1)%Q ->
  onset_times a <> [] -> onset_frames_valid a -> 1 <= lanes ->
  (exists kept, filter_onsets a difficulty = Py.Ok kept /\ kept <> []) /\
  (exists bm, Smart.generate_smart_beatmap a difficulty lanes g = Py.Ok bm /\
              notes bm <> []) /\
  (exists bm, Configurable.generate_configurable_beatmap a
                (Configurable.mkConfig (Some difficulty) (Some lanes)
                                       (Some "smart"%string)) g = Py.Ok bm /\
              notes bm <> []).
Proof.
  intros H0 H1 Hne Hv Hl.
  destruct (Difficulty.filter_onsets_nonempty a difficulty H0 H1 Hne Hv)
    as (t & ts & Hf).
  assert (Hlen : (0 <? Py.len (onset_times a)) = true).
  { apply Z.ltb_lt. unfold Py.len. destruct (onset_times a); [congruence|].
    simpl length. lia. }
  destruct (NoRepeat.place_total lanes (t :: ts) [] (-1) g Hl) as (res & Hres).
  pose proof (NoRepeat.place_spec _ _ _ _ _ _ Hres) as (news & -> & Hp).
  apply NoRepeat.placed_nonempty in Hp.
  split; [|split].
  - exists (t :: ts). split; [assumption|discriminate].
  - unfold Smart.generate_smart_beatmap. rewrite Hlen, Hf. cbn [Py.bind].
    rewrite Hres. cbn [Py.bind]. eexists. split; [reflexivity|]. exact Hp.
  - unfold Configurable.generate_configurable_beatmap.
    cbn [Configurable.get Configurable.cfg_mode Configurable.cfg_lanes
         Configurable.cfg_difficulty].
    rewrite Hlen. cbn [String.eqb Ascii.eqb Bool.eqb andb].
    rewrite Hf. cbn [Py.bind].
    rewrite Hres. cbn [Py.bind]. eexists. split; [reflexivity|]. exact Hp.
Qed.

End SimpleFacts.

(** ** The pattern placement of the expert generator *)

Module ExpertPlacement.
Import Expert.

Lemma classify_beats_ok a :
  exists flags, classify_beats a = Py.Ok flags /\
                length flags = length (beat_times a).
Proof.
  unfold classify_beats.
  rewrite NumpyFacts.percentile_unfold by (unfold Qle; simpl; lia).
  cbn [Py.bind]. eexists. split; [reflexivity|]. now rewrite length_map.
Qed.

Lemma patterns_shape pattern :
  In pattern patterns ->
  length pattern = 8%nat /\ Forall (fun l => 0 <= l <= 3) pattern.
Proof.
  unfold patterns. intros [<-|[<-|[<-|[]]]];
    (split; [reflexivity|repeat constructor; lia]).
Qed.

Lemma getitem_nth {A} (l : list A) i x d :
  Py.getitem l i = Py.Ok x -> x = nth (Z.to_nat i) l d.
Proof.
  unfold Py.getitem. destruct (nth_error l (Z.to_nat i)) eqn:E; [|discriminate].
  intros H. injection H as <-. symmetry. now apply nth_error_nth.
Qed.

Lemma getitem_total {A} (l : list A) i :
  (Z.to_nat i < length l)%nat -> exists x, Py.getitem l i = Py.Ok x.
Proof.
  intros H. unfold Py.getitem.
  destruct (nth_error l (Z.to_nat i)) eqn:E; [now eexists|].
  apply nth_error_None in E. lia.
Qed.

Section Placement.
Variables (lanes : Z) (chord_chance : Q) (pattern : list Z)
          (flags : list bool).

Lemma place_loop_spec ts i pattern_index acc g res :
  place_loop lanes chord_chance pattern flags ts i pattern_index acc g
  = Py.Ok res ->
  exists groups, res = acc ++ flatten groups /\
                 groups_ok lanes pattern pattern_index ts groups.
Proof.
  revert i pattern_index acc g res.
  induction ts as [|t ts IH]; intros i pattern_index acc g res H.
  - cbn in H. injection H as <-. exists []. cbn. now rewrite app_nil_r.
  - cbn [place_loop] in H. unfold Py.bind in H.
    destruct (Py.getitem flags i) as [is_downbeat|e]; [|discriminate].
    destruct (Py.getitem pattern (pattern_index mod Py.len pattern))
      as [lane1|e] eqn:El; [|discriminate].
    apply (getitem_nth _ _ _ 0) in El.
    fold (ms t) in H.
    assert (Hplain : forall g0 res0,
      place_loop lanes chord_chance pattern flags ts (i + 1)
                 (pattern_index + 1) (acc ++ [mkNote (ms t) lane1]) g0
      = Py.Ok res0 ->
      exists groups, res0 = acc ++ flatten groups /\
                     groups_ok lanes pattern pattern_index (t :: ts) groups).
    { intros g0 res0 H0. destruct (IH _ _ _ _ _ H0) as (groups & -> & Hg).
      exists ((mkNote (ms t) lane1, []) :: groups). split.
      - cbn. now rewrite <- app_assoc.
      - cbn [groups_ok]. split; [|assumption].
        split; [cbn; now rewrite El|now left]. }
    destruct is_downbeat; [|now apply Hplain in H].
    destruct (Random.random g) as [u g1].
    destruct (Py.Qltb u chord_chance); [|now apply Hplain in H].
    destruct (filter (fun l => negb (l =? lane1)) (Py.range lanes))
      as [|l0 ls] eqn:Ef; [now apply Hplain in H|].
    destruct (Random.choice (l0 :: ls) g1) as [[lane2 g2]|e] eqn:Ec;
      [|discriminate].
    apply Basics.choice_In in Ec. rewrite <- Ef in Ec.
    apply filter_In in Ec. destruct Ec as [Hr Hne].
    apply Facts.in_range in Hr. apply negb_true_iff, Z.eqb_neq in Hne.
    destruct (IH _ _ _ _ _ H) as (groups & -> & Hg).
    exists ((mkNote (ms t) lane1, [mkNote (ms t) lane2]) :: groups). split.
    + cbn. now rewrite <- !app_assoc.
    + cbn [groups_ok]. split; [|assumption].
      split; [cbn; now rewrite El|]. right. exists lane2. cbn. auto.
Qed.

Lemma place_loop_total ts i pattern_index acc g :
  pattern <> [] -> 0 <= i ->
  (Z.to_nat i + length ts <= length flags)%nat ->
  exists res,
    place_loop lanes chord_chance pattern flags ts i pattern_index acc g
    = Py.Ok res.
Proof.
  intros Hp. revert i pattern_index acc g.
  induction ts as [|t ts IH]; intros i pattern_index acc g Hi Hlen.
  - now exists acc.
  - cbn [place_loop]. simpl length in Hlen.
    destruct (getitem_total flags i ltac:(lia)) as (b & ->).
    assert (Hpl : 0 < Py.len pattern).
    { unfold Py.len. destruct pattern; [congruence|]. simpl length. lia. }
    pose proof (Z.mod_pos_bound pattern_index _ Hpl) as Hm.
    destruct (getitem_total pattern (pattern_index mod Py.len pattern))
      as (lane1 & ->); [unfold Py.len in *; lia|].
    cbn [Py.bind].
    assert (Hnext : forall acc0 g0, exists res,
      place_loop lanes chord_chance pattern flags ts (i + 1)
                 (pattern_index + 1) acc0 g0 = Py.Ok res).
    { intros acc0 g0. apply IH; lia. }
    destruct b; [|apply Hnext].
    destruct (Random.random g) as [u g1].
    destruct (Py.Qltb u chord_chance); [|apply Hnext].
    destruct (filter (fun l => negb (l =? lane1)) (Py.range lanes))
      as [|l0 ls] eqn:Ef; [apply Hnext|].
    destruct (Basics.choice_total (l0 :: ls) g1 ltac:(discriminate))
      as (lane2 & g2 & ->).
    cbn [Py.bind]. apply Hnext.
Qed.

End Placement.

(** *** Consequences of the group structure *)

Lemma groups_length lanes pattern pi ts groups :
  groups_ok lanes pattern pi ts groups -> length groups = length ts.
Proof.
  revert pi groups. induction ts as [|t ts IH]; intros pi [|gr groups] H;
    cbn in H; try contradiction; [reflexivity|].
  cbn. f_equal. eapply IH, H.
Qed.

Lemma groups_nth lanes pattern pi ts groups n gr :
  groups_ok lanes pattern pi ts groups ->
  nth_error groups n = Some gr ->
  exists t, nth_error ts n = Some t /\
            group_ok lanes pattern (pi + Z.of_nat n) t gr.
Proof.
  revert pi groups n. induction ts as [|t ts IH]; intros pi [|g0 groups] n H Hn;
    cbn in H; try contradiction.
  - destruct n; discriminate.
  - destruct H as [H0 H]. destruct n as [|n].
    + cbn in Hn. injection Hn as <-. exists t. split; [reflexivity|].
      now rewrite Z.add_0_r.
    + cbn in Hn. destruct (IH _ _ _ H Hn) as (t' & Ht' & Hg).
      exists t'. split; [assumption|].
      replace (pi + Z.of_nat (S n)) with (pi + 1 + Z.of_nat n) by lia.
      assumption.
Qed.

Lemma group_times lanes pattern pi t gr n :
  group_ok lanes pattern pi t gr -> In n (fst gr :: snd gr) -> time n = ms t.
Proof.
  intros [Hp Hc] [<-|Hn]; [now rewrite Hp|].
  destruct Hc as [Hc|(l2 & Hc & _)]; rewrite Hc in Hn;
    [contradiction|].
  destruct Hn as [<-|[]]. reflexivity.
Qed.

Lemma groups_times lanes pattern pi ts groups n :
  groups_ok lanes pattern pi ts groups ->
  In n (flatten groups) -> In (time n) (map ms ts).
Proof.
  revert pi groups. induction ts as [|t ts IH]; intros pi [|gr groups] H Hn;
    cbn in H; try contradiction.
  destruct H as [H0 H]. unfold flatten in Hn. cbn [flat_map] in Hn.
  apply in_app_or in Hn. destruct Hn as [Hn|Hn].
  - left. symmetry. eapply group_times; eassumption.
  - right. eapply IH; eassumption.
Qed.

(** The times of the notes follow the milliseconds of the timestamps. *)
Lemma groups_sorted lanes pattern pi ts groups :
  groups_ok lanes pattern pi ts groups ->
  StronglySorted Z.le (map ms ts) ->
  StronglySorted Z.le (map time (flatten groups)).
Proof.
  revert pi groups. induction ts as [|t ts IH]; intros pi [|gr groups] H Hs;
    cbn in H; try contradiction; [constructor|].
  destruct H as [H0 H]. cbn [map] in Hs. inversion Hs as [|? ? Hs' Hall]; subst.
  unfold flatten. cbn [flat_map]. rewrite map_app.
  apply Facts.StronglySorted_app.
  - assert (Ht : forall n, In n (fst gr :: snd gr) -> time n = ms t)
      by (intros n; eapply group_times; eassumption).
    destruct H0 as [_ Hc].
    destruct Hc as [Hc|(l2 & Hc & _)]; rewrite Hc.
    + repeat constructor.
    + cbn [map]. constructor; [repeat constructor|].
      constructor; [|constructor].
      rewrite (Ht (fst gr)) by now left. cbn. lia.
  - eapply IH; eassumption.
  - intros x y Hx Hy.
    apply in_map_iff in Hx. destruct Hx as (n & <- & Hn).
    apply in_map_iff in Hy. destruct Hy as (n' & <- & Hn').
    rewrite (group_times _ _ _ _ _ _ H0 Hn).
    apply (groups_times _ _ _ _ _ _ H) in Hn'.
    rewrite Forall_forall in Hall. now apply Hall.
Qed.

(** With strictly increasing milliseconds, notes that share a time are a
    primary note and its chord, on different lanes. *)
Lemma groups_distinct lanes pattern pi ts groups :
  groups_ok lanes pattern pi ts groups ->
  StronglySorted Z.lt (map ms ts) ->
  ForallOrdPairs (fun n1 n2 => time n1 = time n2 -> lane n1 <> lane n2)
                 (flatten groups).
Proof.
  revert pi groups. induction ts as [|t ts IH]; intros pi [|gr groups] H Hs;
    cbn in H; try contradiction; [constructor|].
  destruct H as [H0 H]. cbn [map] in Hs. inversion Hs as [|? ? Hs' Hall]; subst.
  rewrite Forall_forall in Hall.
  assert (Hlater : forall n n', In n (fst gr :: snd gr) ->
            In n' (flatten groups) -> time n = time n' -> lane n <> lane n').
  { intros n n' Hn Hn' E. exfalso.
    rewrite (group_times _ _ _ _ _ _ H0 Hn) in E.
    apply (groups_times _ _ _ _ _ _ H) in Hn'. apply Hall in Hn'. lia. }
  specialize (IH _ _ H Hs').
  unfold flatten in *. cbn [flat_map].
  destruct H0 as [Hp Hc].
  destruct Hc as [Hc|(l2 & Hc & Hr & Hne)]; rewrite Hc in *.
  - constructor; [|exact IH].
    apply Forall_forall. intros n' Hn'. apply Hlater; [now left|exact Hn'].
  - constructor.
    + constructor.
      * intros _. cbn. congruence.
      * apply Forall_forall. intros n' Hn'.
        apply Hlater; [now left|exact Hn'].
    + cbn [app]. constructor; [|exact IH].
      apply Forall_forall. intros n' Hn'.
      apply Hlater; [right; now left|exact Hn'].
Qed.

Lemma ordered_pairs_nth {A} (R : A -> A -> Prop) l i j x y :
  ForallOrdPairs R l -> (i < j)%nat ->
  nth_error l i = Some x -> nth_error l j = Some y -> R x y.
Proof.
  intros H. revert i j. induction H as [|a l Ha Hl IH]; intros i j Hij Hi Hj.
  - destruct i; discriminate.
  - destruct j as [|j]; [lia|]. cbn in Hj.
    destruct i as [|i].
    + cbn in Hi. injection Hi as <-.
      rewrite Forall_forall in Ha. eapply Ha, nth_error_In, Hj.
    + cbn in Hi. apply (IH i j); [lia|assumption..].
Qed.

End ExpertPlacement.

(** ** Order of the expert timestamps *)

Module ExpertOrder.
Import Expert.

Lemma stream_time_bounds (b e : Q) (k sub : Z) :
  (b < e)%Q -> 0 <= k < sub ->
  (b <= b + inject_Z k * (e - b) / inject_Z sub)%Q /\
  (b + inject_Z k * (e - b) / inject_Z sub <= e)%Q.
Proof.
  intros Hbe Hk.
  assert (Hs : (0 < inject_Z sub)%Q).
  { change 0%Q with (inject_Z 0). rewrite <- Zlt_Qlt. lia. }
  assert (Hk0 : (0 <= inject_Z k)%Q).
  { change 0%Q with (inject_Z 0). rewrite <- Zle_Qle. lia. }
  assert (Hks : (inject_Z k <= inject_Z sub)%Q)
    by (rewrite <- Zle_Qle; lia).
  assert (H0 : (0 <= inject_Z k * (e - b) / inject_Z sub)%Q).
  { apply Qle_shift_div_l; [assumption|]. nra. }
  assert (H1 : (inject_Z k * (e - b) / inject_Z sub <= e - b)%Q).
  { apply Qle_shift_div_r; [assumption|]. nra. }
  split; lra.
Qed.

Lemma stream_time_mono (b e : Q) (k1 k2 sub : Z) :
  (b < e)%Q -> 0 < sub -> k1 < k2 ->
  (b + inject_Z k1 * (e - b) / inject_Z sub
   <= b + inject_Z k2 * (e - b) / inject_Z sub)%Q.
Proof.
  intros Hbe Hs Hk.
  assert (Hs' : (0 < inject_Z sub)%Q).
  { change 0%Q with (inject_Z 0). rewrite <- Zlt_Qlt. lia. }
  assert (Hk' : (inject_Z k1 <= inject_Z k2)%Q)
    by (rewrite <- Zle_Qle; lia).
  assert (H : (inject_Z k1 * (e - b) / inject_Z sub
               <= inject_Z k2 * (e - b) / inject_Z sub)%Q).
  { unfold Qdiv. apply Qmult_le_compat_r.
    - nra.
    - apply Qinv_le_0_compat. lra. }
  lra.
Qed.

Lemma range_increasing n : StronglySorted Z.lt (Py.range n).
Proof.
  unfold Py.range.
  apply (Facts.StronglySorted_map lt Z.lt); [intros; lia|].
  apply Sorted_StronglySorted; [intros x y z; lia|].
  generalize 0%nat. induction (Z.to_nat n) as [|m IH]; intros c; cbn.
  - constructor.
  - constructor; [apply IH|]. destruct m; cbn; constructor. lia.
Qed.

Section Beats.
Variables (beats onsets : list Q) (secs : list StreamSection) (sub : Z).
Hypothesis beats_increasing : Sorted Qlt beats.

Lemma beat_at_le (i j : nat) :
  (i <= j)%nat -> (j < length beats)%nat ->
  (beat_at beats (Z.of_nat i) <= beat_at beats (Z.of_nat j))%Q.
Proof.
  intros Hij Hj. unfold beat_at. rewrite !Nat2Z.id.
  destruct (Nat.eq_dec i j) as [->|Hne]; [apply Qle_refl|].
  apply Qlt_le_weak, Facts.StronglySorted_nth;
    [now apply Facts.Sorted_Qlt_strong|lia|assumption].
Qed.

Lemma beat_at_lt (i : nat) :
  (S i < length beats)%nat ->
  (beat_at beats (Z.of_nat i) < beat_at beats (Z.of_nat i + 1))%Q.
Proof.
  intros Hi. replace (Z.of_nat i + 1) with (Z.of_nat (S i)) by lia.
  unfold beat_at. rewrite !Nat2Z.id.
  apply Facts.StronglySorted_nth;
    [now apply Facts.Sorted_Qlt_strong|lia|assumption].
Qed.

Lemma interval_times_bounds (i : nat) x :
  (S i < length beats)%nat ->
  In x (interval_times beats onsets secs sub (Z.of_nat i)) ->
  (beat_at beats (Z.of_nat i) <= x)%Q /\
  (x <= beat_at beats (Z.of_nat i + 1))%Q.
Proof.
  intros Hi Hx. pose proof (beat_at_lt i Hi) as Hlt.
  unfold interval_times in Hx.
  destruct (in_stream secs (Z.of_nat i)).
  - apply in_map_iff in Hx. destruct Hx as (k & <- & Hk).
    apply Facts.in_range in Hk. now apply stream_time_bounds.
  - destruct Hx as [<-|[]].
    destruct (filter _ onsets) as [|t rest] eqn:Ef.
    + split; [apply Qle_refl|now apply Qlt_le_weak].
    + assert (Hin : In t (t :: rest)) by now left.
      rewrite <- Ef in Hin. apply filter_In in Hin.
      destruct Hin as [_ Hp]. apply andb_true_iff in Hp.
      destruct Hp as [H1 H2]. apply Qle_bool_iff in H1.
      apply Facts.Qltb_lt in H2. split; [assumption|now apply Qlt_le_weak].
Qed.

Lemma interval_times_sorted (i : nat) :
  (S i < length beats)%nat ->
  StronglySorted Qle (interval_times beats onsets secs sub (Z.of_nat i)).
Proof.
  intros Hi. pose proof (beat_at_lt i Hi) as Hlt.
  unfold interval_times.
  destruct (in_stream secs (Z.of_nat i)); [|repeat constructor].
  destruct (Z.le_gt_cases sub 0) as [Hs|Hs].
  - rewrite Facts.range_nonpos by assumption. constructor.
  - eapply Facts.StronglySorted_map; [|apply range_increasing].
    intros k1 k2 Hk. cbv beta. apply stream_time_mono; [assumption|lia..].
Qed.

Lemma chunks_sorted c n :
  (c + n < length beats)%nat ->
  StronglySorted Qle
    (flat_map (interval_times beats onsets secs sub)
              (map Z.of_nat (seq c n))) /\
  Forall (fun x => (beat_at beats (Z.of_nat c) <= x)%Q)
    (flat_map (interval_times beats onsets secs sub)
              (map Z.of_nat (seq c n))).
Proof.
  revert c. induction n as [|n IH]; intros c Hc.
  - cbn. split; constructor.
  - cbn [seq map flat_map].
    destruct (IH (S c) ltac:(lia)) as [IHs IHb].
    rewrite Forall_forall in IHb.
    split.
    + apply Facts.StronglySorted_app;
        [apply interval_times_sorted; lia|exact IHs|].
      intros x y Hx Hy.
      apply interval_times_bounds in Hx; [|lia].
      apply IHb in Hy.
      replace (Z.of_nat c + 1) with (Z.of_nat (S c)) in Hx by lia.
      eapply Qle_trans; [apply Hx|exact Hy].
    + apply Forall_app. split; apply Forall_forall; intros x Hx.
      * apply interval_times_bounds in Hx; [tauto|lia].
      * apply IHb in Hx. eapply Qle_trans; [|exact Hx].
        apply beat_at_le; lia.
Qed.

(** The generated timestamps are in ascending order. *)
Lemma timestamps_sorted :
  StronglySorted Qle (fst (note_timestamps_of beats onsets secs sub)).
Proof.
  rewrite ExpertTimestamps.note_timestamps_fuel. cbn [fst].
  unfold interval_indices.
  destruct (Nat.eq_dec (length beats) 0) as [E|E].
  - rewrite E. cbn. constructor.
  - apply chunks_sorted. lia.
Qed.

End Beats.

End ExpertOrder.

(** ** The generated beatmaps *)

Module Beatmaps.
Import Expert.

(** [generate_stream_map] always returns, and its note list is a sequence
    of groups, one per note timestamp, that follow one pattern. *)
Lemma expert_run a lanes sub D chord_chance g :
  exists bm pattern g' groups,
    Random.choice patterns g = Py.Ok (pattern, g') /\
    generate_stream_map a lanes sub D chord_chance g = Py.Ok bm /\
    notes bm = flatten groups /\
    groups_ok lanes pattern 0 (expert_timestamps a sub D) groups.
Proof.
  destruct (ExpertPlacement.classify_beats_ok a) as (flags & Hc & _).
  unfold generate_stream_map, expert_timestamps, expert_sections, expert_flags.
  rewrite Hc. cbn [Py.bind].
  pose proof (ExpertTimestamps.timestamps_flags_length (beat_times a)
                (onset_times a)
                (find_stream_sections flags (Py.len (beat_times a)) D) sub)
    as Hlen.
  destruct (note_timestamps_of _ _ _ sub) as [ts bfs]. cbn [fst snd] in *.
  destruct (Basics.choice_total patterns g ltac:(discriminate))
    as (pattern & g' & Hp).
  rewrite Hp. cbn [Py.bind].
  pose proof (Basics.choice_In _ _ _ _ Hp) as Hin.
  apply ExpertPlacement.patterns_shape in Hin. destruct Hin as [H8 _].
  destruct (ExpertPlacement.place_loop_total lanes chord_chance pattern bfs
              ts 0 0 [] g') as (res & Hres).
  { destruct pattern; [discriminate|congruence]. }
  { lia. }
  { cbn. lia. }
  rewrite Hres. cbn [Py.bind].
  apply ExpertPlacement.place_loop_spec in Hres.
  destruct Hres as (groups & -> & Hg).
  exists (mkBeatmap "StreamGenerator" (flatten groups)), pattern, g', groups.
  cbn [notes app]. auto.
Qed.

Lemma expert_sorted a lanes sub D chord_chance g bm :
  Sorted Qlt (beat_times a) ->
  generate_stream_map a lanes sub D chord_chance g = Py.Ok bm ->
  sorted_by_time (notes bm).
Proof.
  intros Hb H.
  destruct (expert_run a lanes sub D chord_chance g)
    as (bm' & pattern & g' & groups & _ & H' & Hn & Hg).
  rewrite H in H'. injection H' as <-.
  unfold sorted_by_time. rewrite Hn. apply StronglySorted_Sorted.
  eapply ExpertPlacement.groups_sorted; [exact Hg|].
  eapply Facts.StronglySorted_map; [apply Basics.ms_mono|].
  unfold expert_timestamps. now apply ExpertOrder.timestamps_sorted.
Qed.

(** C3. With strictly increasing beat timestamps and onsets in ascending
    order, the notes of every beatmap that one of the three generators
    returns are in non-decreasing order of [time]. *)
Theorem notes_sorted_by_time (a : Analysis) :
  Sorted Qlt (beat_times a) -> Sorted Qle (onset_times a) ->
  (forall lanes sub D chord_chance g bm,
     generate_stream_map a lanes sub D chord_chance g = Py.Ok bm ->
     sorted_by_time (notes bm)) /\
  (forall difficulty lanes g bm,
     Smart.generate_smart_beatmap a difficulty lanes g = Py.Ok bm ->
     sorted_by_time (notes bm)) /\
  (forall config g bm,
     Configurable.generate_configurable_beatmap a config g = Py.Ok bm ->
     sorted_by_time (notes bm)).
Proof.
  intros Hb Ho. apply Facts.Sorted_Qle_strong in Ho.
  split; [|split].
  - intros lanes sub D cc g bm H. eapply expert_sorted; eassumption.
  - intros d lanes g bm H. apply SimpleFacts.smart_notes in H.
    destruct H as (ts & Hts & Hp).
    eapply SimpleFacts.placed_sorted; [|exact Hp].
    eapply SimpleFacts.smart_selection; eassumption.
  - intros config g bm H. apply SimpleFacts.configurable_notes in H.
    destruct H as (ts & Hts & Hp).
    eapply SimpleFacts.placed_sorted; [|exact Hp].
    eapply SimpleFacts.configurable_selection; eassumption.
Qed.

Lemma placed_distinct lanes last ts news :
  Sorted Z.lt (map ms ts) -> placed lanes last ts news ->
  distinct_lanes_per_time news.
Proof.
  intros Hs Hp i j n1 n2 Hij H1 H2 E. exfalso.
  rewrite <- (NoRepeat.placed_times _ _ _ _ Hp) in Hs.
  apply Sorted_StronglySorted in Hs; [|intros x y z; lia].
  assert (Hj : (j < length (map time news))%nat).
  { rewrite length_map. apply nth_error_Some. congruence. }
  pose proof (Facts.StronglySorted_nth Z.lt _ 0 i j Hs Hij Hj) as Hlt.
  rewrite !(nth_indep _ 0 (time n1)) in Hlt by lia.
  rewrite !map_nth in Hlt.
  rewrite (nth_error_nth _ _ _ H1), (nth_error_nth _ _ _ H2) in Hlt. lia.
Qed.

(** C6. The expert generator picks one pattern of eight lanes before the
    first note; its note list is one group per note timestamp, a primary
    note followed by at most one chord note at the same time on another
    lane, and the [n]-th primary note is on lane [pattern[n mod 8]],
    whether or not the timestamp is a downbeat, through the whole list. *)
Theorem primary_lanes_follow_pattern (a : Analysis) (lanes sub : Z)
    (D chord_chance : Q) (g : Random.rng) :
  exists bm pattern g' groups,
    Random.choice patterns g = Py.Ok (pattern, g') /\
    In pattern patterns /\ length pattern = 8%nat /\
    generate_stream_map a lanes sub D chord_chance g = Py.Ok bm /\
    notes bm = flatten groups /\
    length groups = length (expert_timestamps a sub D) /\
    forall n primary chords,
      nth_error groups n = Some (primary, chords) ->
      lane primary = nth (n mod 8) pattern 0 /\
      time primary = ms (nth n (expert_timestamps a sub D) 0%Q) /\
      (length chords <= 1)%nat /\
      Forall (fun c => time c = time primary /\ lane c <> lane primary)
             chords.
Proof.
  destruct (expert_run a lanes sub D chord_chance g)
    as (bm & pattern & g' & groups & Hp & H & Hn & Hg).
  exists bm, pattern, g', groups.
  pose proof (Basics.choice_In _ _ _ _ Hp) as Hin.
  destruct (ExpertPlacement.patterns_shape _ Hin) as [H8 _].
  repeat split; auto.
  - eapply ExpertPlacement.groups_length, Hg.
  - destruct (ExpertPlacement.groups_nth _ _ _ _ _ _ _ Hg H0)
      as (t & Ht & [Hprim _]).
    cbn [fst] in Hprim. rewrite Hprim. cbn [lane].
    unfold Py.len. rewrite H8. f_equal.
    change (Z.of_nat 8) with 8. rewrite Z.add_0_l.
    change 8 with (Z.of_nat 8). rewrite <- Nat2Z.inj_mod. apply Nat2Z.id.
  - destruct (ExpertPlacement.groups_nth _ _ _ _ _ _ _ Hg H0)
      as (t & Ht & [Hprim _]).
    cbn [fst] in Hprim. rewrite Hprim. cbn [time].
    now rewrite (nth_error_nth _ _ _ Ht).
  - destruct (ExpertPlacement.groups_nth _ _ _ _ _ _ _ Hg H0)
      as (t & Ht & [_ Hch]).
    cbn [snd] in Hch. destruct Hch as [->|(l2 & -> & _)]; cbn; lia.
  - destruct (ExpertPlacement.groups_nth _ _ _ _ _ _ _ Hg H0)
      as (t & Ht & [Hprim Hch]).
    cbn [fst snd] in *. destruct Hch as [->|(l2 & -> & _ & Hne)];
      [constructor|].
    constructor; [|constructor]. rewrite Hprim in *. cbn in *. auto.
Qed.

(** X13. With four lanes or more every note of the expert generator,
    primary or chord, is on a lane in [0, lanes). *)
Lemma expert_lanes_in_range a lanes sub D chord_chance g bm :
  4 <= lanes ->
  generate_stream_map a lanes sub D chord_chance g = Py.Ok bm ->
  lanes_in_range lanes (notes bm).
Proof.
  intros Hl H.
  destruct (expert_run a lanes sub D chord_chance g)
    as (bm' & pattern & g' & groups & Hp & H' & Hn & Hg).
  rewrite H in H'. injection H' as <-.
  apply Basics.choice_In, ExpertPlacement.patterns_shape in Hp.
  destruct Hp as [H8 Hv]. rewrite Forall_forall in Hv.
  unfold lanes_in_range. rewrite Hn. clear Hn H.
  revert Hg. generalize 0 at 1. generalize (expert_timestamps a sub D).
  induction groups as [|gr groups IH]; intros ts pi Hg; [constructor|].
  destruct ts as [|t ts]; cbn in Hg; [contradiction|].
  destruct Hg as [[Hprim Hch] Hg].
  unfold flatten. cbn [flat_map]. apply Forall_app. split.
  - assert (Hlane : 0 <= lane (fst gr) <= 3).
    { rewrite Hprim. cbn [lane]. apply Hv, nth_In.
      assert (0 < Py.len pattern) by (unfold Py.len; rewrite H8; lia).
      pose proof (Z.mod_pos_bound pi _ H). unfold Py.len in *. lia. }
    constructor; [lia|].
    destruct Hch as [->|(l2 & -> & Hr & _)]; [constructor|].
    constructor; [cbn; lia|constructor].
  - eapply IH, Hg.
Qed.

(** C5 at [lanes = 2]: the primary notes of the expert generator come from
    the four-lane patterns, so the third note is on lane 2. *)
Lemma expert_lane_outside_range :
  exists bm,
    generate_stream_map Demo.analysis 2 4 4 (1 # 4) Demo.rng = Py.Ok bm /\
    nth_error (notes bm) 2 = Some (mkNote 500 2) /\
    ~ lanes_in_range 2 (notes bm).
Proof.
  eexists. split; [vm_compute; reflexivity|]. split; [reflexivity|].
  intros H. unfold lanes_in_range in H. rewrite Forall_forall in H.
  specialize (H (mkNote 500 2)). cbn in H.
  assert (0 <= 2 < 2) by (apply H; right; right; now left). lia.
Qed.

(** X14. Every note of the simple generators is on a lane in
    [0, lanes), where the configurable generator takes 4 lanes when the
    configuration names none. *)
Lemma simple_lanes_in_range a :
  (forall difficulty lanes g bm,
     Smart.generate_smart_beatmap a difficulty lanes g = Py.Ok bm ->
     lanes_in_range lanes (notes bm)) /\
  (forall config g bm,
     Configurable.generate_configurable_beatmap a config g = Py.Ok bm ->
     lanes_in_range (Configurable.get (Configurable.cfg_lanes config) 4)
                    (notes bm)).
Proof.
  split.
  - intros d lanes g bm H. apply SimpleFacts.smart_notes in H.
    destruct H as (ts & _ & Hp). eapply NoRepeat.placed_in_range, Hp.
  - intros config g bm H. apply SimpleFacts.configurable_notes in H.
    destruct H as (ts & _ & Hp). eapply NoRepeat.placed_in_range, Hp.
Qed.

(** C4 as stated fails: two onsets in the same millisecond on the only
    lane. *)
Lemma same_time_same_lane :
  exists bm,
    Smart.generate_smart_beatmap Demo.dense_onsets 1 1 Demo.rng = Py.Ok bm /\
    ~ distinct_lanes_per_time (notes bm).
Proof.
  eexists. split; [vm_compute; reflexivity|].
  intros H.
  apply (H 0%nat 1%nat (mkNote 0 0) (mkNote 0 0)); auto.
Qed.

(** C9 as stated fails: no lanes and no subdivisions, and the expert
    generator returns a beatmap. *)
Lemma malformed_config_accepted :
  (0 <= 0) /\
  generate_stream_map Demo.analysis 0 0 4 (1 # 4) Demo.rng =
  Py.Ok (mkBeatmap "StreamGenerator" [mkNote 100 0]).
Proof. split; [lia|]. vm_compute. reflexivity. Qed.

Lemma timestamps_without_subdivision beats onsets secs sub :
  sub <= 0 ->
  length (fst (note_timestamps_of beats onsets secs sub)) =
  length (filter (fun i => negb (in_stream secs i)) (interval_indices beats)).
Proof.
  intros Hs. rewrite ExpertTimestamps.note_timestamps_fuel. cbn [fst].
  induction (interval_indices beats) as [|i l IH]; [reflexivity|].
  cbn [flat_map filter]. rewrite length_app, IH.
  unfold interval_times at 1.
  destruct (in_stream secs i); cbn [negb].
  - now rewrite Facts.range_nonpos.
  - reflexivity.
Qed.

(** C9, amended. The configuration is not validated. The expert generator
    returns a beatmap for every [lanes] and [stream_subdivision]; with
    [stream_subdivision <= 0] only the beats outside the stream sections
    yield a timestamp. With [lanes <= 0] the simple generators raise
    [IndexError] (the random choice on an empty lane list) when there is a
    note to place, and return an empty note list when there is none. *)
Theorem unvalidated_configuration (a : Analysis) :
  (forall lanes sub D chord_chance g,
     exists bm, generate_stream_map a lanes sub D chord_chance g = Py.Ok bm) /\
  (forall sub D, sub <= 0 ->
     length (expert_timestamps a sub D) =
     length (filter (fun i => negb (in_stream (expert_sections a D) i))
                    (interval_indices (beat_times a)))) /\
  (forall difficulty lanes g, lanes <= 0 ->
     (onset_times a = [] ->
      Smart.generate_smart_beatmap a difficulty lanes g =
      Py.Ok (mkBeatmap "SmartGenerator" [])) /\
     ((0 <= difficulty)%Q -> (difficulty <= 1)%Q ->
      onset_times a <> [] -> onset_frames_valid a ->
      Smart.generate_smart_beatmap a difficulty lanes g =
      Py.Raise Py.IndexError)) /\
  (forall difficulty lanes g, lanes <= 0 ->
     (onset_times a = [] ->
      Configurable.generate_configurable_beatmap a
        (Configurable.mkConfig difficulty (Some lanes) None) g =
      Py.Ok (mkBeatmap "ConfigurableGenerator (chaotic)" [])) /\
     (onset_times a <> [] ->
      Configurable.generate_configurable_beatmap a
        (Configurable.mkConfig difficulty (Some lanes) None) g =
      Py.Raise Py.IndexError)).
Proof.
  split; [|split; [|split]].
  - intros lanes sub D cc g.
    destruct (expert_run a lanes sub D cc g) as (bm & _ & _ & _ & _ & H & _).
    now exists bm.
  - intros sub D Hs. unfold expert_timestamps.
    now apply timestamps_without_subdivision.
  - intros d lanes g Hl. split.
    + intros E. unfold Smart.generate_smart_beatmap. rewrite E. reflexivity.
    + intros H0 H1 Hne Hv.
      destruct (Difficulty.filter_onsets_nonempty a d H0 H1 Hne Hv)
        as (t & ts & Hf).
      unfold Smart.generate_smart_beatmap.
      replace (0 <? Py.len (onset_times a)) with true.
      * rewrite Hf. cbn [Py.bind].
        now rewrite NoRepeat.place_no_lanes.
      * symmetry. apply Z.ltb_lt. unfold Py.len.
        destruct (onset_times a); [congruence|]. simpl length. lia.
  - intros d lanes g Hl. split.
    + intros E. unfold Configurable.generate_configurable_beatmap.
      rewrite E. reflexivity.
    + intros Hne. unfold Configurable.generate_configurable_beatmap.
      cbn [Configurable.get Configurable.cfg_mode Configurable.cfg_lanes
           Configurable.cfg_difficulty String.eqb Ascii.eqb Bool.eqb andb].
      cbn [Py.bind]. destruct (onset_times a) as [|t ts]; [congruence|].
      now rewrite NoRepeat.place_no_lanes.
Qed.

End Beatmaps.

(** ** The theorems on the sample inputs *)

Module Samples.
Import Expert.

Ltac in_order :=
  repeat (constructor; try (unfold Qle, Qlt; cbn; lia)); try (cbn; lia).

Lemma sample_beats_increasing : Sorted Qlt (beat_times Demo.analysis).
Proof. cbn. in_order. Defined.

Lemma sample_onsets_ascending : Sorted Qle (onset_times Demo.analysis).
Proof. cbn. in_order. Defined.

Lemma sample_frames_valid : onset_frames_valid Demo.analysis.
Proof. unfold onset_frames_valid. cbn. in_order. Defined.

Lemma sample_onsets_nonempty : onset_times Demo.analysis <> [].
Proof. cbn. discriminate. Defined.

Lemma note_timestamps_per_interval_witness :
  Sorted Qle (onset_times Demo.analysis) /\
  exists chunks : list (list Q * list bool),
    length chunks = 4%nat /\
    note_timestamps_of (beat_times Demo.analysis) (onset_times Demo.analysis)
                       [(1, 3)] 4 =
    (flat_map fst chunks, flat_map snd chunks).
Proof.
  split; [exact sample_onsets_ascending|].
  destruct (ExpertTimestamps.note_timestamps_per_interval
              (beat_times Demo.analysis) (onset_times Demo.analysis)
              [(1, 3)] 4 sample_onsets_ascending)
    as (chunks & Hlen & Heq & _).
  exists chunks. split; assumption.
Defined.

Lemma notes_sorted_by_time_witness :
  Sorted Qlt (beat_times Demo.analysis) /\
  Sorted Qle (onset_times Demo.analysis) /\
  exists bm,
    generate_stream_map Demo.analysis 4 4 4 (1 # 4) Demo.rng = Py.Ok bm /\
    sorted_by_time (notes bm).
Proof.
  split; [exact sample_beats_increasing|].
  split; [exact sample_onsets_ascending|].
  eexists. split; [vm_compute; reflexivity|].
  apply (proj1 (Beatmaps.notes_sorted_by_time Demo.analysis
                  sample_beats_increasing sample_onsets_ascending)
               4 4 4%Q (1 # 4)%Q Demo.rng).
  vm_compute. reflexivity.
Defined.

Lemma no_immediate_repeat_witness :
  2 <= 4 /\
  exists bm,
    Smart.generate_smart_beatmap Demo.analysis 1 4 Demo.rng = Py.Ok bm /\
    adjacent_lanes_differ (notes bm).
Proof.
  split; [lia|].
  eexists. split; [vm_compute; reflexivity|].
  apply (proj1 (SimpleFacts.no_immediate_repeat Demo.analysis 1 4
                  (Configurable.mkConfig None None None) Demo.rng
                  ltac:(lia) ltac:(cbn; lia))).
  vm_compute. reflexivity.
Defined.

Lemma difficulty_extremes_witness :
  onset_times Demo.analysis <> [] /\
  onset_frames_valid Demo.analysis /\
  filter_onsets Demo.analysis 1 = Py.Ok [1 # 10; 6 # 10; 7 # 10]%Q /\
  filter_onsets Demo.analysis 0 = Py.Ok [6 # 10; 7 # 10]%Q.
Proof.
  split; [exact sample_onsets_nonempty|].
  split; [exact sample_frames_valid|].
  destruct (Difficulty.difficulty_extremes Demo.analysis
              sample_onsets_nonempty sample_frames_valid) as [H1 H0].
  split; [exact H1|]. rewrite H0. vm_compute. reflexivity.
Defined.

Lemma unvalidated_configuration_witness :
  0 <= 0 /\
  (0 <= 1)%Q /\ (1 <= 1)%Q /\
  onset_times Demo.analysis <> [] /\ onset_frames_valid Demo.analysis /\
  Smart.generate_smart_beatmap Demo.analysis 1 0 Demo.rng =
  Py.Raise Py.IndexError.
Proof.
  assert (H0 : (0 <= 1)%Q) by (unfold Qle; cbn; lia).
  assert (H1 : (1 <= 1)%Q) by (unfold Qle; cbn; lia).
  split; [lia|]. split; [exact H0|]. split; [exact H1|].
  split; [exact sample_onsets_nonempty|].
  split; [exact sample_frames_valid|].
  apply (proj2 (proj1 (proj2 (proj2 (Beatmaps.unvalidated_configuration
                                       Demo.analysis)))
                      1%Q 0 Demo.rng ltac:(lia))
               H0 H1 sample_onsets_nonempty sample_frames_valid).
Defined.

Lemma smart_mode_keeps_a_note_witness :
  (0 <= 1 # 2)%Q /\ (1 # 2 <= 1)%Q /\
  onset_times Demo.analysis <> [] /\ onset_frames_valid Demo.analysis /\
  1 <= 4 /\
  exists bm,
    Smart.generate_smart_beatmap Demo.analysis (1 # 2) 4 Demo.rng = Py.Ok bm /\
    notes bm <> [].
Proof.
  assert (H0 : (0 <= 1 # 2)%Q) by (unfold Qle; cbn; lia).
  assert (H1 : (1 # 2 <= 1)%Q) by (unfold Qle; cbn; lia).
  split; [exact H0|]. split; [exact H1|].
  split; [exact sample_onsets_nonempty|].
  split; [exact sample_frames_valid|].
  split; [lia|].
  exact (proj1 (proj2 (SimpleFacts.smart_mode_keeps_a_note Demo.analysis
                         (1 # 2)%Q 4 Demo.rng H0 H1 sample_onsets_nonempty
                         sample_frames_valid ltac:(lia)))).
Defined.

End Samples.

(** ** The stream sections of an arbitrary flag sequence *)

Module Runs.
Import Expert.

Lemma flag_at_middle pre b rest :
  flag_at (pre ++ b :: rest) (Py.len pre) = b.
Proof.
  unfold flag_at, Py.len.
  destruct (Z.leb_spec 0 (Z.of_nat (length pre))); [|lia].
  rewrite Nat2Z.id. cbn [andb]. apply nth_middle.
Qed.

Lemma flag_at_outside flags k :
  k < 0 \/ Py.len flags <= k -> flag_at flags k = false.
Proof.
  unfold flag_at, Py.len. intros [H|H].
  - destruct (Z.leb_spec 0 k); [lia|reflexivity].
  - rewrite nth_overflow by lia. apply andb_false_r.
Qed.

(** Two maximal extensions to the left of the same end coincide. *)
Lemma run_start_unique flags s c i :
  s < i -> c < i ->
  all_high flags s i -> flag_at flags (s - 1) = false ->
  all_high flags c i -> flag_at flags (c - 1) = false ->
  s = c.
Proof.
  intros Hs Hc Has Hfs Hac Hfc.
  destruct (Z.lt_trichotomy s c) as [H|[H|H]]; [|assumption|].
  - rewrite (Has (c - 1)) in Hfc by lia. discriminate.
  - rewrite (Hac (s - 1)) in Hfs by lia. discriminate.
Qed.

Lemma separated_snoc secs c i :
  separated secs ->
  (forall s e, In (s, e) secs -> e < c) ->
  separated (secs ++ [(c, i)]).
Proof.
  intros Hs Hlt. apply Facts.StronglySorted_app.
  - exact Hs.
  - repeat constructor.
  - intros [s e] y Hin [<-|[]]. cbn. eapply Hlt, Hin.
Qed.

Lemma scan_step_inv flags D i st b :
  0 <= i -> flag_at flags i = b ->
  scan_inv flags D i st -> scan_inv flags D (i + 1) (scan_step D st i b).
Proof.
  intros Hi Hb. destruct st as [secs css]. unfold scan_inv, scan_step.
  intros (I1 & I2 & I3 & I4).
  assert (Hgrow : b = true -> forall s e,
    (0 <= s < e /\ e < i + 1 /\ all_high flags s e /\
     flag_at flags (s - 1) = false /\ flag_at flags e = false /\
     (D <= inject_Z (e - s))%Q) <->
    (0 <= s < e /\ e < i /\ all_high flags s e /\
     flag_at flags (s - 1) = false /\ flag_at flags e = false /\
     (D <= inject_Z (e - s))%Q)).
  { intros Hb' s e. split; intros (H1 & H2 & H3 & H4 & H5 & H6);
      repeat split; try assumption; try lia.
    destruct (Z.eq_dec e i) as [->|]; [|lia]. congruence. }
  destruct b; cbn [andb negb].
  - destruct (Z.eqb_spec css (-1)) as [Hc|Hc]; cbn [andb negb].
    + split; [|split; [|split]].
      * intros E. lia.
      * intros _. split; [lia|]. split; [|apply I1, Hc].
        intros k Hk. replace k with i by lia. assumption.
      * intros s e. rewrite (Hgrow eq_refl). apply I3.
      * assumption.
    + destruct (I2 Hc) as (H1 & H2 & H3).
      split; [|split; [|split]].
      * intros E. contradiction.
      * intros _. split; [lia|]. split; [|assumption].
        intros k Hk. destruct (Z.eq_dec k i) as [->|]; [assumption|].
        apply H2. lia.
      * intros s e. rewrite (Hgrow eq_refl). apply I3.
      * assumption.
  - destruct (Z.eqb_spec css (-1)) as [Hc|Hc]; cbn [andb negb].
    + specialize (I1 Hc). split; [|split; [|split]].
      * intros _. now replace (i + 1 - 1) with i by lia.
      * intros Hne. contradiction.
      * intros s e. rewrite I3.
        split; intros (H1 & H2 & H3 & H4 & H5 & H6);
          repeat split; try assumption; try lia.
        destruct (Z.eq_dec e i) as [->|]; [|lia].
        rewrite (H3 (i - 1)) in I1 by lia. discriminate.
      * assumption.
    + destruct (I2 Hc) as (H1 & H2 & H3).
      assert (Hbefore : forall s e, In (s, e) secs -> e < css).
      { intros s e H. apply I3 in H.
        destruct H as (Ha & Hb' & _ & _ & Hf & _).
        destruct (Z.lt_ge_cases e css); [assumption|].
        rewrite (H2 e) in Hf by lia. discriminate. }
      assert (Hnew : forall s e,
        (In (s, e) secs \/ ((s, e) = (css, i) /\
                           (D <= inject_Z (i - css))%Q)) <->
        (0 <= s < e /\ e < i + 1 /\ all_high flags s e /\
         flag_at flags (s - 1) = false /\ flag_at flags e = false /\
         (D <= inject_Z (e - s))%Q)).
      { intros s e. split.
        - intros [H|[E HD]].
          + apply I3 in H. destruct H as (Ha & Hb' & Hrest).
            repeat split; try tauto; lia.
          + injection E as -> ->. repeat split; try assumption; lia.
        - intros (Ha & Hb' & Hh & Hf & He & HD).
          destruct (Z.eq_dec e i) as [->|Hne].
          + right.
            assert (s = css)
              by (apply (run_start_unique flags s css i); auto; lia).
            subst s. auto.
          + left. apply I3. repeat split; try assumption; lia. }
      destruct (Qle_bool D (inject_Z (i - css))) eqn:EQ.
      * apply Qle_bool_iff in EQ. split; [|split; [|split]].
        -- intros _. now replace (i + 1 - 1) with i by lia.
        -- contradiction.
        -- intros s e. rewrite <- Hnew. rewrite in_app_iff. cbn [In].
           split; intros [H|H]; auto.
           ++ destruct H as [H|[]]. right. split; [now symmetry|assumption].
           ++ right. left. symmetry. apply H.
        -- apply separated_snoc; assumption.
      * apply Facts.Qle_bool_false in EQ. split; [|split; [|split]].
        -- intros _. now replace (i + 1 - 1) with i by lia.
        -- contradiction.
        -- intros s e. rewrite <- Hnew. split; [auto|].
           intros [H|[E HD]]; [assumption|]. exfalso.
           apply (Qlt_not_le _ _ EQ HD).
        -- assumption.
Qed.

Lemma scan_inv_from rest pre flags D st :
  flags = pre ++ rest ->
  scan_inv flags D (Py.len pre) st ->
  scan_inv flags D (Py.len flags) (scan D rest (Py.len pre) st).
Proof.
  revert pre st. induction rest as [|b rest IH]; intros pre st E Hinv.
  - rewrite app_nil_r in E. subst. exact Hinv.
  - cbn [scan].
    assert (E' : flags = (pre ++ [b]) ++ rest) by (now rewrite <- app_assoc).
    replace (Py.len pre + 1) with (Py.len (pre ++ [b]))
      by (rewrite Facts.len_app; reflexivity).
    apply IH; [exact E'|].
    rewrite Facts.len_app. change (Py.len [b]) with 1.
    apply scan_step_inv; [unfold Py.len; lia| |exact Hinv].
    rewrite E. apply flag_at_middle.
Qed.

Lemma scan_inv_start flags D : scan_inv flags D 0 ([], -1).
Proof.
  unfold scan_inv. split; [|split; [|split]].
  - intros _. apply flag_at_outside. lia.
  - intros H. exfalso. now apply H.
  - intros s e. split; [intros []|]. intros (H1 & H2 & _). lia.
  - constructor.
Qed.

Lemma scan_inv_end flags D :
  scan_inv flags D (Py.len flags) (scan D flags 0 ([], -1)).
Proof.
  apply (scan_inv_from flags [] flags D); [reflexivity|].
  apply scan_inv_start.
Qed.

(** The sections are exactly the maximal high-energy runs that are long
    enough. *)
Lemma sections_are_long_runs flags D s e :
  In (s, e) (find_stream_sections flags (Py.len flags) D) <->
  maximal_run flags s e /\ (D <= inject_Z (e - s))%Q.
Proof.
  unfold find_stream_sections.
  pose proof (scan_inv_end flags D) as Hinv.
  destruct (scan D flags 0 ([], -1)) as [secs css].
  destruct Hinv as (I1 & I2 & I3 & I4).
  set (n := Py.len flags) in *.
  assert (Hend : flag_at flags n = false)
    by (apply flag_at_outside; unfold n; lia).
  assert (Hclosed : In (s, e) secs <->
            (maximal_run flags s e /\ (D <= inject_Z (e - s))%Q) /\ e < n).
  { rewrite I3. unfold maximal_run. fold n. split.
    - intros (H1 & H2 & H3 & H4 & H5 & H6). repeat split; try assumption; lia.
    - intros (((H1 & H2 & H3 & H4 & H5) & H6) & H7).
      repeat split; try assumption; lia. }
  assert (Hopen : css <> -1 ->
            (maximal_run flags s e /\ e = n <-> (s, e) = (css, n))).
  { intros Hc. destruct (I2 Hc) as (H1 & H2 & H3). split.
    - intros ((Ha & Hb & Hh & Hf & _) & ->).
      f_equal. apply (run_start_unique flags s css n); auto; lia.
    - intros E. injection E as -> ->. unfold maximal_run. fold n.
      repeat split; try assumption; lia. }
  assert (Hnone : css = -1 -> maximal_run flags s e -> e < n).
  { intros Hc (Ha & Hb & Hh & _). fold n in Hb.
    destruct (Z.eq_dec e n) as [->|]; [|lia].
    rewrite (Hh (n - 1)) in I1 by lia. specialize (I1 Hc). discriminate. }
  destruct (Z.eqb_spec css (-1)) as [Hc|Hc]; cbn [negb andb].
  - rewrite Hclosed. split; [tauto|]. intros [Hm HD].
    split; [tauto|]. now apply Hnone.
  - specialize (Hopen Hc).
    destruct (Qle_bool D (inject_Z (n - css))) eqn:EQ.
    + apply Qle_bool_iff in EQ. rewrite in_app_iff, Hclosed. cbn [In].
      split.
      * intros [H|[H|[]]]; [tauto|].
        symmetry in H. pose proof H as H'. apply Hopen in H.
        injection H' as -> ->. tauto.
      * intros [Hm HD]. destruct Hm as (Ha & Hb & Hrest). fold n in Hb.
        destruct (Z.eq_dec e n) as [He|He].
        -- right. left. symmetry. apply Hopen.
           split; [|assumption]. unfold maximal_run. fold n. tauto.
        -- left. split; [|lia]. split; [|assumption].
           unfold maximal_run. fold n. tauto.
    + apply Facts.Qle_bool_false in EQ. rewrite Hclosed. split; [tauto|].
      intros [Hm HD]. split; [tauto|].
      destruct Hm as (Ha & Hb & Hrest). fold n in Hb.
      destruct (Z.eq_dec e n) as [He|He]; [|lia]. exfalso.
      assert (E : (s, e) = (css, n)).
      { apply Hopen. split; [|assumption]. unfold maximal_run. fold n. tauto. }
      injection E as -> ->. apply (Qlt_not_le _ _ EQ HD).
Qed.

Lemma sections_separated flags D :
  separated (find_stream_sections flags (Py.len flags) D).
Proof.
  unfold find_stream_sections.
  pose proof (scan_inv_end flags D) as Hinv.
  destruct (scan D flags 0 ([], -1)) as [secs css].
  destruct Hinv as (I1 & I2 & I3 & I4).
  destruct (negb (css =? -1) && _) eqn:E; [|assumption].
  apply andb_true_iff in E. destruct E as [E _].
  apply negb_true_iff, Z.eqb_neq in E.
  destruct (I2 E) as (H1 & H2 & H3).
  apply separated_snoc; [assumption|].
  intros s e H. apply I3 in H. destruct H as (_ & Hb & _ & _ & Hf & _).
  destruct (Z.lt_ge_cases e css); [assumption|].
  rewrite (H2 e) in Hf by lia. discriminate.
Qed.

End Runs.

(** ** Beats without high energy *)

Module Quiet.
Import Expert.

(** For a valid [q] the percentile of a non-empty array is at least one of
    its elements. *)
Lemma percentile_ge_some a q :
  a <> [] -> (0 <= q)%Q -> (q <= 100)%Q ->
  exists v x, Numpy.percentile a q = Py.Ok v /\ In x a /\ (x <= v)%Q.
Proof.
  intros Ha H0 H1. rewrite NumpyFacts.percentile_unfold by assumption.
  cbv zeta.
  set (arr := Numpy.sort a). set (n := Py.len arr).
  assert (Hn : 1 <= n).
  { unfold n, arr, Py.len. rewrite NumpyFacts.sort_length.
    destruct a; [congruence|]. simpl length. lia. }
  destruct (NumpyFacts.virtual_index_bounds n q Hn H0 H1) as [Hv0 Hv1].
  set (vi := (inject_Z (n - 1) * (q / 100))%Q) in *.
  assert (Hf0 : 0 <= Qfloor vi).
  { change 0 with (Qfloor 0). now apply Qfloor_resp_le. }
  assert (Hf1 : Qfloor vi <= n - 1).
  { rewrite <- (Qfloor_Z (n - 1)). now apply Qfloor_resp_le. }
  pose proof (Qfloor_le vi) as Hg0.
  replace (Z.max 0 (Z.min (n - 1) (Qfloor vi))) with (Qfloor vi) by lia.
  set (f := Qfloor vi) in *.
  set (h := Z.max 0 (Z.min (n - 1) (f + 1))).
  assert (Hs : StronglySorted Qle arr) by apply NumpyFacts.sort_sorted.
  assert (Hlh : (nth (Z.to_nat f) arr 0 <= nth (Z.to_nat h) arr 0)%Q).
  { apply NumpyFacts.sorted_nth_le; [assumption|unfold h; lia|].
    unfold n, Py.len in *. unfold h. lia. }
  eexists. exists (nth (Z.to_nat f) arr 0%Q).
  split; [reflexivity|]. split.
  - apply (Permutation_in _ (NumpyFacts.sort_perm a)). apply nth_In.
    unfold n, Py.len in *. fold arr. lia.
  - set (lo := nth (Z.to_nat f) arr 0%Q) in *.
    set (hi := nth (Z.to_nat h) arr 0%Q) in *.
    nra.
Qed.

Lemma flag_at_all_low flags k :
  Forall (fun b => b = false) flags -> flag_at flags k = false.
Proof.
  intros H. unfold flag_at.
  destruct (Nat.lt_ge_cases (Z.to_nat k) (length flags)) as [Hk|Hk].
  - rewrite Forall_forall in H. rewrite (H (nth (Z.to_nat k) flags false)).
    + apply andb_false_r.
    + now apply nth_In.
  - rewrite nth_overflow by assumption. apply andb_false_r.
Qed.

Lemma no_high_no_sections flags D :
  Forall (fun b => b = false) flags ->
  find_stream_sections flags (Py.len flags) D = [].
Proof.
  intros H.
  destruct (find_stream_sections flags (Py.len flags) D) as [|[s e] l] eqn:E;
    [reflexivity|].
  assert (Hin : In (s, e) (find_stream_sections flags (Py.len flags) D))
    by (rewrite E; now left).
  apply Runs.sections_are_long_runs in Hin.
  destruct Hin as [(Hse & _ & Hh & _) _].
  specialize (Hh s ltac:(lia)).
  rewrite (flag_at_all_low flags s H) in Hh. discriminate.
Qed.

Lemma plain_chunks beats onsets sub (l : list Z) :
  length (flat_map (interval_times beats onsets [] sub) l) = length l /\
  flat_map (interval_flags [] sub) l = repeat true (length l).
Proof.
  induction l as [|i l [IH1 IH2]]; [split; reflexivity|].
  cbn [flat_map]. rewrite length_app, IH1, IH2. split; reflexivity.
Qed.

Lemma plain_timestamps beats onsets sub :
  length (fst (note_timestamps_of beats onsets [] sub))
  = (length beats - 1)%nat /\
  snd (note_timestamps_of beats onsets [] sub)
  = repeat true (length beats - 1).
Proof.
  rewrite ExpertTimestamps.note_timestamps_fuel. cbn [fst snd].
  destruct (plain_chunks beats onsets sub (interval_indices beats))
    as [H1 H2].
  rewrite H1, H2. unfold interval_indices.
  rewrite length_map, length_seq. split; reflexivity.
Qed.

Lemma classify_flags a :
  exists thr,
    Numpy.percentile (rms a) 60 = Py.Ok thr /\
    expert_flags a =
    map (fun t =>
           if (time_to_frames a t <? length (rms a))%nat
           then Py.Qltb thr (nth (time_to_frames a t) (rms a) 0%Q)
           else false)
        (beat_times a).
Proof.
  unfold expert_flags, classify_beats.
  rewrite NumpyFacts.percentile_unfold by (unfold Qle; simpl; lia).
  cbn [Py.bind]. eexists. split; reflexivity.
Qed.

Lemma quiet_expert a sub D :
  Forall (fun b => b = false) (expert_flags a) ->
  expert_sections a D = [] /\
  length (expert_timestamps a sub D) = (length (beat_times a) - 1)%nat /\
  expert_beat_flags a sub D = repeat true (length (beat_times a) - 1).
Proof.
  intros H.
  assert (Hlen : Py.len (expert_flags a) = Py.len (beat_times a)).
  { destruct (classify_flags a) as (thr & _ & ->).
    unfold Py.len. now rewrite length_map. }
  assert (Hs : expert_sections a D = []).
  { unfold expert_sections. rewrite <- Hlen. now apply no_high_no_sections. }
  split; [exact Hs|].
  unfold expert_timestamps, expert_beat_flags. rewrite Hs.
  apply plain_timestamps.
Qed.

End Quiet.

(** ** Chords of the expert placement *)

Module Chords.
Import Expert.

Lemma random_unit g u g' :
  Random.random g = (u, g') -> (0 <= u)%Q /\ (u < 1)%Q.
Proof.
  unfold Random.random. destruct (Random.next g) as [w g1].
  intros H. injection H as <- _.
  pose proof (Z.mod_pos_bound w (2 ^ 53) ltac:(lia)) as Hb.
  unfold Qle, Qlt. cbn [Qnum Qden].
  change (Z.pos (2 ^ 53)) with (2 ^ 53).
  split; lia.
Qed.

Lemma other_lane lanes lane1 :
  2 <= lanes ->
  filter (fun l => negb (l =? lane1)) (Py.range lanes) <> [].
Proof.
  intros Hl E.
  assert (H : forall x, 0 <= x < lanes -> x <> lane1 -> False).
  { intros x Hx Hne.
    assert (Hin : In x (filter (fun l => negb (l =? lane1)) (Py.range lanes))).
    { apply filter_In. split; [now apply Facts.in_range|].
      now apply negb_true_iff, Z.eqb_neq. }
    rewrite E in Hin. contradiction. }
  destruct (Z.eq_dec lane1 0) as [->|Hne].
  - apply (H 1); lia.
  - apply (H 0); lia.
Qed.

Section Placement.
Variables (lanes : Z) (chord_chance : Q) (pattern : list Z)
          (flags : list bool).

Lemma place_loop_chords ts i pattern_index acc g res :
  0 <= i ->
  place_loop lanes chord_chance pattern flags ts i pattern_index acc g
  = Py.Ok res ->
  exists groups bs,
    res = acc ++ flatten groups /\
    groups_ok lanes pattern pattern_index ts groups /\
    Forall2 (chord_rule lanes chord_chance) bs groups /\
    forall n, (n < length bs)%nat ->
              nth_error flags (Z.to_nat i + n) = nth_error bs n.
Proof.
  revert i pattern_index acc g res.
  induction ts as [|t ts IH]; intros i pattern_index acc g res Hi H.
  - cbn in H. injection H as <-. exists [], []. cbn.
    rewrite app_nil_r. repeat split; [constructor|]. intros n Hn. cbn in Hn. lia.
  - cbn [place_loop] in H. unfold Py.bind in H.
    unfold Py.getitem at 1 in H.
    destruct (nth_error flags (Z.to_nat i)) as [is_downbeat|] eqn:Eb;
      [|discriminate].
    destruct (Py.getitem pattern (pattern_index mod Py.len pattern))
      as [lane1|e] eqn:El; [|discriminate].
    apply (ExpertPlacement.getitem_nth _ _ _ 0) in El.
    fold (ms t) in H.
    assert (Hcons : forall chords g0 res0,
      chord_rule lanes chord_chance is_downbeat
                 (mkNote (ms t) lane1, chords) ->
      (chords = [] \/
       exists lane2, chords = [mkNote (ms t) lane2] /\
                     0 <= lane2 < lanes /\ lane2 <> lane1) ->
      place_loop lanes chord_chance pattern flags ts (i + 1)
                 (pattern_index + 1)
                 (acc ++ mkNote (ms t) lane1 :: chords) g0 = Py.Ok res0 ->
      exists groups bs,
        res0 = acc ++ flatten groups /\
        groups_ok lanes pattern pattern_index (t :: ts) groups /\
        Forall2 (chord_rule lanes chord_chance) bs groups /\
        forall n, (n < length bs)%nat ->
                  nth_error flags (Z.to_nat i + n) = nth_error bs n).
    { intros chords g0 res0 Hrule Hshape H0.
      destruct (IH (i + 1) _ _ _ _ ltac:(lia) H0)
        as (groups & bs & -> & Hg & Hf & Hn).
      exists ((mkNote (ms t) lane1, chords) :: groups), (is_downbeat :: bs).
      split; [|split; [|split]].
      - unfold flatten. cbn [flat_map fst snd].
        now rewrite <- !app_assoc.
      - cbn [groups_ok]. split; [|assumption].
        split; [cbn; now rewrite El|]. exact Hshape.
      - now constructor.
      - intros [|n] Hlt.
        + now rewrite Nat.add_0_r.
        + cbn [nth_error]. cbn [length] in Hlt.
          rewrite <- Hn by lia. f_equal. lia. }
    assert (Hplain : forall g0,
      (is_downbeat = true -> (1 <= chord_chance)%Q -> 2 <= lanes -> False) ->
      place_loop lanes chord_chance pattern flags ts (i + 1)
                 (pattern_index + 1) (acc ++ [mkNote (ms t) lane1]) g0
      = Py.Ok res ->
      exists groups bs,
        res = acc ++ flatten groups /\
        groups_ok lanes pattern pattern_index (t :: ts) groups /\
        Forall2 (chord_rule lanes chord_chance) bs groups /\
        forall n, (n < length bs)%nat ->
                  nth_error flags (Z.to_nat i + n) = nth_error bs n).
    { intros g0 Hno H0. apply (Hcons [] g0 res); [|now left|exact H0].
      split; cbn [snd]; [congruence|]. intros H1 H2 H3. exfalso. auto. }
    destruct is_downbeat; [|apply (Hplain g); [discriminate|exact H]].
    destruct (Random.random g) as [u g1] eqn:Eu.
    apply random_unit in Eu. destruct Eu as [Hu0 Hu1].
    destruct (Py.Qltb u chord_chance) eqn:Ecc.
    2:{ apply (Hplain g1); [|exact H]. intros _ Hc _.
        assert (Hlt : (u < chord_chance)%Q) by lra.
        apply Facts.Qltb_lt in Hlt. congruence. }
    apply Facts.Qltb_lt in Ecc.
    destruct (filter (fun l => negb (l =? lane1)) (Py.range lanes))
      as [|l0 ls] eqn:Ef.
    { apply (Hplain g1); [|exact H]. intros _ _ Hl.
      now apply (other_lane lanes lane1 Hl). }
    destruct (Random.choice (l0 :: ls) g1) as [[lane2 g2]|e] eqn:Ec;
      [|discriminate].
    apply Basics.choice_In in Ec. rewrite <- Ef in Ec.
    apply filter_In in Ec. destruct Ec as [Hr Hne].
    apply Facts.in_range in Hr. apply negb_true_iff, Z.eqb_neq in Hne.
    apply (Hcons [mkNote (ms t) lane2] g2 res).
    + split; cbn [snd]; [intros _; split; [reflexivity|lra]|].
      intros _ _ _. discriminate.
    + right. exists lane2. auto.
    + rewrite <- app_assoc in H. exact H.
Qed.

End Placement.

Lemma flags_segment (flags bs : list bool) :
  length bs = length flags ->
  (forall n, (n < length bs)%nat -> nth_error flags n = nth_error bs n) ->
  bs = flags.
Proof.
  intros Hlen H. apply nth_error_ext. intros n.
  destruct (Nat.lt_ge_cases n (length bs)) as [Hn|Hn].
  - symmetry. now apply H.
  - rewrite (proj2 (nth_error_None bs n)) by assumption.
    symmetry. apply nth_error_None. lia.
Qed.

(** [generate_stream_map] with the downbeat flag of every group. *)
Lemma expert_run_chords a lanes sub D chord_chance g :
  exists bm pattern g' groups,
    Random.choice patterns g = Py.Ok (pattern, g') /\
    generate_stream_map a lanes sub D chord_chance g = Py.Ok bm /\
    notes bm = flatten groups /\
    groups_ok lanes pattern 0 (expert_timestamps a sub D) groups /\
    Forall2 (chord_rule lanes chord_chance) (expert_beat_flags a sub D) groups.
Proof.
  destruct (Beatmaps.expert_run a lanes sub D chord_chance g)
    as (bm & pattern & g' & groups0 & Hp & Hrun & _ & Hg0).
  exists bm, pattern, g'.
  pose proof Hrun as Hrun'.
  destruct (ExpertPlacement.classify_beats_ok a) as (flags & Hc & _).
  unfold generate_stream_map in Hrun'.
  unfold expert_timestamps, expert_beat_flags, expert_sections, expert_flags
    in *.
  rewrite Hc in *. cbn [Py.bind] in Hrun'.
  pose proof (ExpertTimestamps.timestamps_flags_length (beat_times a)
                (onset_times a)
                (find_stream_sections flags (Py.len (beat_times a)) D) sub)
    as Hlen.
  destruct (note_timestamps_of _ _ _ sub) as [ts bfs]. cbn [fst snd] in *.
  rewrite Hp in Hrun'. cbn [Py.bind] in Hrun'. unfold Py.bind in Hrun'.
  destruct (place_loop lanes chord_chance pattern bfs ts 0 0 [] g')
    as [res|e] eqn:Eres; [|discriminate].
  injection Hrun' as <-. cbn [notes].
  apply place_loop_chords in Eres; [|lia].
  destruct Eres as (groups & bs & -> & Hg & Hf & Hn).
  exists groups. cbn [app]. repeat split; try assumption.
  replace bfs with bs; [assumption|].
  apply flags_segment.
  - rewrite (Forall2_length Hf), <- Hlen.
    eapply ExpertPlacement.groups_length, Hg.
  - intros n Hlt. now apply Hn.
Qed.

Lemma no_chords_flat lanes pattern pi ts groups :
  groups_ok lanes pattern pi ts groups ->
  Forall (fun gr => snd gr = []) groups ->
  flatten groups = pattern_notes pattern pi ts.
Proof.
  revert pi groups. induction ts as [|t ts IH]; intros pi [|gr groups] Hg Hf;
    cbn in Hg; try contradiction; [reflexivity|].
  destruct Hg as [[Hprim _] Hg]. inversion Hf as [|? ? Hs Hf']; subst.
  unfold flatten. cbn [flat_map pattern_notes]. rewrite Hs, Hprim.
  cbn [app]. f_equal. now apply IH.
Qed.

Lemma chord_count lanes chord_chance pattern pi ts bs groups :
  groups_ok lanes pattern pi ts groups ->
  Forall2 (chord_rule lanes chord_chance) bs groups ->
  (length ts <= length (flatten groups) <= length ts + downbeats bs)%nat /\
  ((1 <= chord_chance)%Q -> 2 <= lanes ->
   length (flatten groups) = (length ts + downbeats bs)%nat).
Proof.
  intros Hg Hf. revert pi ts Hg.
  induction Hf as [|b gr bs groups Hrule Hf IH]; intros pi ts Hg.
  - destruct ts; cbn in Hg; [|contradiction]. cbn. split; [lia|reflexivity].
  - destruct ts as [|t ts]; cbn in Hg; [contradiction|].
    destruct Hg as [[_ Hshape] Hg].
    destruct (IH _ _ Hg) as [IH1 IH2].
    unfold flatten in *. cbn [flat_map length]. rewrite length_app.
    unfold downbeats in *. cbn [filter].
    destruct Hrule as [Hr1 Hr2].
    destruct Hshape as [Hs|(l2 & Hs & _)]; rewrite Hs in *; cbn [length].
    + destruct b; cbn [length].
      * split; [lia|]. intros Hc Hl. exfalso. now apply (Hr2 eq_refl Hc Hl).
      * split; [lia|]. intros Hc Hl. rewrite (IH2 Hc Hl). lia.
    + destruct (Hr1 ltac:(discriminate)) as [-> _]. cbn [length].
      split; [lia|]. intros Hc Hl. rewrite (IH2 Hc Hl). lia.
Qed.

End Chords.

(** ** Where the expert timestamps lie, and how many there are *)

Module Bounds.
Import Expert.

Section Beats.
Variables (beats onsets : list Q) (secs : list StreamSection) (sub : Z).
Hypothesis beats_increasing : Sorted Qlt beats.

Lemma chunks_between c n x :
  (c + n < length beats)%nat ->
  In x (flat_map (interval_times beats onsets secs sub)
                 (map Z.of_nat (seq c n))) ->
  (beat_at beats (Z.of_nat c) <= x)%Q /\
  (x <= beat_at beats (Z.of_nat (c + n)))%Q.
Proof.
  revert c. induction n as [|n IH]; intros c Hc Hx; [contradiction|].
  cbn [seq map flat_map] in Hx. apply in_app_or in Hx.
  destruct Hx as [Hx|Hx].
  - apply (ExpertOrder.interval_times_bounds beats onsets secs sub
             beats_increasing) in Hx; [|lia].
    destruct Hx as [H1 H2]. split; [assumption|].
    eapply Qle_trans; [exact H2|].
    replace (Z.of_nat c + 1) with (Z.of_nat (S c)) by lia.
    apply (ExpertOrder.beat_at_le beats beats_increasing); lia.
  - apply IH in Hx; [|lia]. destruct Hx as [H1 H2].
    replace (S c + n)%nat with (c + S n)%nat in H2 by lia.
    split; [|assumption].
    eapply Qle_trans; [|exact H1].
    apply (ExpertOrder.beat_at_le beats beats_increasing); lia.
Qed.

Lemma timestamps_between x :
  In x (fst (note_timestamps_of beats onsets secs sub)) ->
  (nth 0 beats 0 <= x)%Q /\ (x <= last beats 0)%Q.
Proof.
  rewrite ExpertTimestamps.note_timestamps_fuel. cbn [fst].
  unfold interval_indices. intros Hx.
  destruct (Nat.eq_dec (length beats) 0) as [E|E].
  - rewrite E in Hx. cbn in Hx. contradiction.
  - apply chunks_between in Hx; [|lia].
    unfold beat_at in Hx. rewrite !Nat2Z.id in Hx.
    replace (0 + (length beats - 1))%nat with (length beats - 1)%nat in Hx
      by lia.
    destruct Hx as [H1 H2]. split; [assumption|].
    destruct (@exists_last _ beats) as (l' & z & Hl).
    { intros ->. cbn in E. lia. }
    clear beats_increasing H1. subst beats. rewrite last_last.
    rewrite length_app in H2. cbn [length] in H2.
    replace (length l' + 1 - 1)%nat with (length l') in H2 by lia.
    now rewrite nth_middle in H2.
Qed.

End Beats.

Lemma timestamp_count beats onsets secs sub :
  length (fst (note_timestamps_of beats onsets secs sub)) =
  (Z.to_nat sub * stream_intervals secs beats
   + plain_intervals secs beats)%nat.
Proof.
  rewrite ExpertTimestamps.note_timestamps_fuel. cbn [fst].
  unfold stream_intervals, plain_intervals.
  induction (interval_indices beats) as [|i l IH]; [cbn; lia|].
  cbn [flat_map filter]. rewrite length_app, IH.
  unfold interval_times at 1.
  destruct (in_stream secs i); cbn [negb length].
  - rewrite length_map, Facts.range_length. lia.
  - lia.
Qed.

End Bounds.

(** ** More on the difficulty filter *)

Module Filtering.

(** The percentile grows with [q]. *)
Lemma percentile_mono a q1 q2 :
  a <> [] -> (0 <= q1)%Q -> (q1 <= q2)%Q -> (q2 <= 100)%Q ->
  exists v1 v2,
    Numpy.percentile a q1 = Py.Ok v1 /\ Numpy.percentile a q2 = Py.Ok v2 /\
    (v1 <= v2)%Q.
Proof.
  intros Ha H0 H12 H1.
  rewrite !NumpyFacts.percentile_unfold by lra.
  cbv zeta.
  set (arr := Numpy.sort a). set (n := Py.len arr).
  assert (Hn : 1 <= n).
  { unfold n, arr, Py.len. rewrite NumpyFacts.sort_length.
    destruct a; [congruence|]. simpl length. lia. }
  destruct (NumpyFacts.virtual_index_bounds n q1 Hn ltac:(lra) ltac:(lra))
    as [Ha0 Ha1].
  destruct (NumpyFacts.virtual_index_bounds n q2 Hn ltac:(lra) ltac:(lra))
    as [Hb0 Hb1].
  assert (Hvv : (inject_Z (n - 1) * (q1 / 100)
                 <= inject_Z (n - 1) * (q2 / 100))%Q).
  { assert (Hm : (0 <= inject_Z (n - 1))%Q).
    { change 0%Q with (inject_Z 0). rewrite <- Zle_Qle. lia. }
    assert (Hq : (q1 / 100 <= q2 / 100)%Q).
    { unfold Qdiv. apply Qmult_le_compat_r; [assumption|].
      unfold Qle; simpl; lia. }
    nra. }
  set (v1 := (inject_Z (n - 1) * (q1 / 100))%Q) in *.
  set (v2 := (inject_Z (n - 1) * (q2 / 100))%Q) in *.
  assert (Hf1 : 0 <= Qfloor v1 <= n - 1).
  { split.
    - change 0 with (Qfloor 0). now apply Qfloor_resp_le.
    - rewrite <- (Qfloor_Z (n - 1)). now apply Qfloor_resp_le. }
  assert (Hf2 : 0 <= Qfloor v2 <= n - 1).
  { split.
    - change 0 with (Qfloor 0). now apply Qfloor_resp_le.
    - rewrite <- (Qfloor_Z (n - 1)). now apply Qfloor_resp_le. }
  assert (Hff : Qfloor v1 <= Qfloor v2) by now apply Qfloor_resp_le.
  pose proof (Qfloor_le v1) as Hg1. pose proof (Qlt_floor v1) as Hg1'.
  pose proof (Qfloor_le v2) as Hg2. pose proof (Qlt_floor v2) as Hg2'.
  rewrite inject_Z_plus in Hg1', Hg2'.
  change (inject_Z 1) with 1%Q in Hg1', Hg2'.
  replace (Z.max 0 (Z.min (n - 1) (Qfloor v1))) with (Qfloor v1) by lia.
  replace (Z.max 0 (Z.min (n - 1) (Qfloor v2))) with (Qfloor v2) by lia.
  set (f1 := Qfloor v1) in *. set (f2 := Qfloor v2) in *.
  set (h1 := Z.max 0 (Z.min (n - 1) (f1 + 1))).
  set (h2 := Z.max 0 (Z.min (n - 1) (f2 + 1))).
  assert (Hs : StronglySorted Qle arr) by apply NumpyFacts.sort_sorted.
  assert (Hle : forall i j, 0 <= i <= j -> j <= n - 1 ->
            (nth (Z.to_nat i) arr 0 <= nth (Z.to_nat j) arr 0)%Q).
  { intros i j Hij Hj. apply NumpyFacts.sorted_nth_le; [assumption|lia|].
    unfold n, Py.len in *. lia. }
  eexists. eexists. split; [reflexivity|]. split; [reflexivity|].
  pose proof (Hle f1 h1 ltac:(unfold h1; lia) ltac:(unfold h1; lia)) as L1.
  pose proof (Hle f2 h2 ltac:(unfold h2; lia) ltac:(unfold h2; lia)) as L2.
  destruct (Z.eq_dec f1 f2) as [E|E].
  - unfold h2. rewrite <- E. fold h1.
    set (lo := nth (Z.to_nat f1) arr 0%Q) in *.
    set (hi := nth (Z.to_nat h1) arr 0%Q) in *.
    rewrite <- E in Hg2, Hg2'. nra.
  - pose proof (Hle h1 f2 ltac:(unfold h1; lia) ltac:(lia)) as L12.
    set (lo1 := nth (Z.to_nat f1) arr 0%Q) in *.
    set (hi1 := nth (Z.to_nat h1) arr 0%Q) in *.
    set (lo2 := nth (Z.to_nat f2) arr 0%Q) in *.
    set (hi2 := nth (Z.to_nat h2) arr 0%Q) in *.
    assert (A1 : (lo1 + (hi1 - lo1) * (v1 - inject_Z f1) <= hi1)%Q) by nra.
    assert (A2 : (lo2 <= lo2 + (hi2 - lo2) * (v2 - inject_Z f2))%Q) by nra.
    lra.
Qed.

Lemma filter_weaker {A} (p q : A -> bool) l :
  (forall x, In x l -> p x = true -> q x = true) ->
  incl (filter p l) (filter q l) /\
  (length (filter p l) <= length (filter q l))%nat.
Proof.
  intros H. split.
  - intros x Hx. apply filter_In in Hx. apply filter_In.
    split; [tauto|]. apply H; tauto.
  - induction l as [|x l IH]; [reflexivity|].
    cbn [filter].
    assert (IH' : (length (filter p l) <= length (filter q l))%nat).
    { apply IH. intros y Hy. apply H. now right. }
    destruct (p x) eqn:Ep.
    + rewrite (H x (or_introl eq_refl) Ep). cbn [length]. lia.
    + destruct (q x); cbn [length]; lia.
Qed.

(** What the filter returns is taken from the onsets. *)
Lemma filter_onsets_within a difficulty ts :
  filter_onsets a difficulty = Py.Ok ts ->
  incl ts (onset_times a) /\ (length ts <= length (onset_times a))%nat.
Proof.
  unfold filter_onsets, Py.bind. intros H.
  destruct (Py.take _ _) as [ss|e]; [|discriminate].
  destruct (Numpy.percentile _ _) as [thr|e]; [|discriminate].
  injection H as <-. split.
  - intros t Ht. apply in_map_iff in Ht. destruct Ht as ([t' s] & <- & Hin).
    apply filter_In in Hin. destruct Hin as [Hin _].
    now apply in_combine_l in Hin.
  - rewrite length_map.
    eapply Nat.le_trans; [apply filter_length_le|].
    rewrite length_combine. lia.
Qed.

Lemma filter_keeps_all a :
  onset_times a <> [] -> onset_frames_valid a ->
  filter_onsets a 1 = Py.Ok (onset_times a).
Proof.
  intros Hne Hv. rewrite Difficulty.filter_onsets_valid by assumption.
  destruct (NumpyFacts.percentile_0
              (map (strength a) (onset_times a)) ((1 - 1) * 100)%Q
              (Difficulty.strengths_nonempty a Hne) ltac:(reflexivity))
    as (v & -> & Hmin).
  cbn [Py.bind]. f_equal.
  apply Facts.filter_all. intros t Ht.
  apply Qle_bool_iff, Hmin. now apply in_map.
Qed.

Lemma percentile_out_of_range a q :
  (q < 0)%Q \/ (100 < q)%Q ->
  Numpy.percentile a q = Py.Raise Py.ValueError.
Proof.
  intros H. unfold Numpy.percentile.
  destruct H as [H|H]; apply Facts.Qle_bool_false in H; rewrite H;
    [reflexivity|now rewrite andb_false_r].
Qed.

Lemma take_invalid {A} (arr : list A) idx :
  Exists (fun i => (length arr <= i)%nat) idx ->
  Py.take arr idx = Py.Raise Py.IndexError.
Proof.
  induction 1 as [i idx Hi|i idx _ IH]; cbn [Py.take].
  - now rewrite (proj2 (nth_error_None arr i)).
  - destruct (nth_error arr i); [|reflexivity]. now rewrite IH.
Qed.

Lemma onsets_present a :
  onset_times a <> [] -> (0 <? Py.len (onset_times a)) = true.
Proof.
  intros H. apply Z.ltb_lt. unfold Py.len.
  destruct (onset_times a); [congruence|]. simpl length. lia.
Qed.

End Filtering.

(** ** Further properties of the generators *)

Module Coverage.
Import Expert.

Lemma separated_positions (secs : list StreamSection) i j x y :
  separated secs -> (i < j)%nat ->
  nth_error secs i = Some x -> nth_error secs j = Some y -> snd x < fst y.
Proof.
  intros H. revert i j.
  induction H as [|a l Hs IH Ha]; intros i j Hij Hi Hj.
  - destruct i; discriminate.
  - destruct j as [|j]; [lia|]. cbn in Hj. destruct i as [|i].
    + cbn in Hi. injection Hi as <-.
      rewrite Forall_forall in Ha. eapply Ha, nth_error_In, Hj.
    + cbn in Hi. apply (IH i j); [lia|assumption..].
Qed.

(** X1. The stream sections of a flag sequence are exactly its maximal runs
    of high-energy beats (the beat before the run and the beat after it are
    low or missing) that span at least the minimum duration. *)
Theorem stream_sections_exact (flags : list bool) (D : Q) (s e : Z) :
  In (s, e) (find_stream_sections flags (Py.len flags) D) <->
  maximal_run flags s e /\ (D <= inject_Z (e - s))%Q.
Proof. apply Runs.sections_are_long_runs. Qed.

(** X2. The stream sections come in increasing order and never touch: a
    section listed earlier ends strictly before a later one starts. *)
Theorem stream_sections_disjoint (flags : list bool) (D : Q) (i j : nat)
    (s1 e1 s2 e2 : Z) :
  (i < j)%nat ->
  nth_error (find_stream_sections flags (Py.len flags) D) i = Some (s1, e1) ->
  nth_error (find_stream_sections flags (Py.len flags) D) j = Some (s2, e2) ->
  e1 < s2.
Proof.
  intros Hij Hi Hj.
  exact (separated_positions _ i j (s1, e1) (s2, e2)
           (Runs.sections_separated flags D) Hij Hi Hj).
Qed.

(** X3. A beat that the note generator treats as streamed is a
    high-energy beat of the flag sequence, inside a run of high-energy
    beats of at least the minimum duration. *)
Theorem streamed_beat_is_high (flags : list bool) (D : Q) (i : Z) :
  in_stream (find_stream_sections flags (Py.len flags) D) i = true ->
  0 <= i < Py.len flags /\ flag_at flags i = true /\
  exists s e, s <= i < e /\ all_high flags s e /\
              (D <= inject_Z (e - s))%Q.
Proof.
  intros H. apply ExpertTimestamps.in_stream_iff in H.
  destruct H as (s & e & Hin & Hi).
  apply Runs.sections_are_long_runs in Hin.
  destruct Hin as [(Hse & Hn & Hh & _) HD].
  split; [lia|]. split; [now apply Hh|].
  exists s, e. auto.
Qed.

(** X4. On an RMS curve of constant value no beat exceeds the percentile
    threshold (the comparison is strict): there is no stream section and
    every beat interval yields a single downbeat timestamp. *)
Theorem constant_energy_no_stream (a : Analysis) (c : Q) (sub : Z) (D : Q) :
  Forall (fun x => (x == c)%Q) (rms a) ->
  expert_sections a D = [] /\
  length (expert_timestamps a sub D) = (length (beat_times a) - 1)%nat /\
  expert_beat_flags a sub D = repeat true (length (beat_times a) - 1).
Proof.
  intros Hc. apply Quiet.quiet_expert.
  destruct (Quiet.classify_flags a) as (thr & Hthr & ->).
  apply Forall_forall. intros b Hb.
  apply in_map_iff in Hb. destruct Hb as (t & <- & _).
  destruct (Nat.ltb_spec (time_to_frames a t) (length (rms a))) as [Hlt|];
    [|reflexivity].
  assert (Hne : rms a <> []).
  { intros E. rewrite E in Hlt. cbn in Hlt. lia. }
  destruct (Quiet.percentile_ge_some (rms a) 60 Hne
              ltac:(unfold Qle; simpl; lia) ltac:(unfold Qle; simpl; lia))
    as (v & x & Hv & Hx & Hxv).
  rewrite Hthr in Hv. injection Hv as <-.
  rewrite Forall_forall in Hc.
  pose proof (Hc x Hx) as Ex.
  pose proof (Hc _ (nth_In (rms a) 0%Q Hlt)) as En.
  unfold Py.Qltb.
  assert (E : Qle_bool (nth (time_to_frames a t) (rms a) 0%Q) thr = true)
    by (apply Qle_bool_iff; lra).
  now rewrite E.
Qed.

(** X5. Beats whose frame lies past the end of the RMS curve are not
    high-energy: when that holds for every beat there is no stream section
    and every beat interval yields a single downbeat timestamp. *)
Theorem beats_beyond_signal_no_stream (a : Analysis) (sub : Z) (D : Q) :
  Forall (fun t => (length (rms a) <= time_to_frames a t)%nat)
         (beat_times a) ->
  expert_sections a D = [] /\
  length (expert_timestamps a sub D) = (length (beat_times a) - 1)%nat /\
  expert_beat_flags a sub D = repeat true (length (beat_times a) - 1).
Proof.
  intros Hb. apply Quiet.quiet_expert.
  destruct (Quiet.classify_flags a) as (thr & _ & ->).
  apply Forall_forall. intros b Hin.
  apply in_map_iff in Hin. destruct Hin as (t & <- & Ht).
  rewrite Forall_forall in Hb. specialize (Hb t Ht).
  destruct (Nat.ltb_spec (time_to_frames a t) (length (rms a)));
    [lia|reflexivity].
Qed.

(** X6. The number of note timestamps of the expert generator is
    [max(S, 0)] for every beat interval inside a stream section plus one
    for every other beat interval. *)
Theorem note_timestamp_count (a : Analysis) (sub : Z) (D : Q) :
  length (expert_timestamps a sub D) =
  (Z.to_nat sub * stream_intervals (expert_sections a D) (beat_times a)
   + plain_intervals (expert_sections a D) (beat_times a))%nat.
Proof. unfold expert_timestamps. apply Bounds.timestamp_count. Qed.

(** X7. With fewer than two beat timestamps there is no beat interval:
    the expert generator returns a beatmap without notes, whatever the
    onsets and the parameters. *)
Theorem short_beat_grid_no_notes (a : Analysis) (lanes sub : Z)
    (D chord_chance : Q) (g : Random.rng) :
  (length (beat_times a) <= 1)%nat ->
  exists bm,
    generate_stream_map a lanes sub D chord_chance g = Py.Ok bm /\
    notes bm = [].
Proof.
  intros Hlen.
  destruct (Beatmaps.expert_run a lanes sub D chord_chance g)
    as (bm & pattern & g' & groups & _ & H & Hn & Hg).
  exists bm. split; [assumption|].
  assert (Hts : expert_timestamps a sub D = []).
  { unfold expert_timestamps.
    rewrite ExpertTimestamps.note_timestamps_fuel. cbn [fst].
    unfold interval_indices.
    replace (length (beat_times a) - 1)%nat with 0%nat by lia.
    reflexivity. }
  rewrite Hts in Hg. destruct groups; cbn in Hg; [|contradiction].
  now rewrite Hn.
Qed.

(** X8. With strictly increasing beats every note of the expert generator
    lies between the first and the last beat (in milliseconds): onsets
    before the first beat or after the last one place no note. *)
Theorem note_times_within_beats (a : Analysis) (lanes sub : Z)
    (D chord_chance : Q) (g : Random.rng) (bm : Beatmap) (n : NoteEvent) :
  Sorted Qlt (beat_times a) ->
  generate_stream_map a lanes sub D chord_chance g = Py.Ok bm ->
  In n (notes bm) ->
  ms (nth 0 (beat_times a) 0%Q) <= time n <= ms (last (beat_times a) 0%Q).
Proof.
  intros Hb H Hn.
  destruct (Beatmaps.expert_run a lanes sub D chord_chance g)
    as (bm' & pattern & g' & groups & _ & H' & Hnotes & Hg).
  rewrite H in H'. injection H' as <-. rewrite Hnotes in Hn.
  apply (ExpertPlacement.groups_times _ _ _ _ _ _ Hg) in Hn.
  apply in_map_iff in Hn. destruct Hn as (t & <- & Ht).
  unfold expert_timestamps in Ht.
  apply (Bounds.timestamps_between _ _ _ _ Hb) in Ht.
  destruct Ht as [H1 H2]. split; now apply Basics.ms_mono.
Qed.

(** X9. The notes of the expert generator are one group per note
    timestamp, and a group carries a chord note only if its timestamp is
    flagged as downbeat and the chord chance is positive; so there are at
    least as many notes as timestamps and at most one more per downbeat. *)
Theorem chords_only_on_downbeats (a : Analysis) (lanes sub : Z)
    (D chord_chance : Q) (g : Random.rng) :
  exists bm pattern groups,
    generate_stream_map a lanes sub D chord_chance g = Py.Ok bm /\
    notes bm = flatten groups /\
    groups_ok lanes pattern 0 (expert_timestamps a sub D) groups /\
    (forall k gr, nth_error groups k = Some gr -> snd gr <> [] ->
       nth_error (expert_beat_flags a sub D) k = Some true /\
       (0 < chord_chance)%Q) /\
    (length (expert_timestamps a sub D) <= length (notes bm)
     <= length (expert_timestamps a sub D)
        + downbeats (expert_beat_flags a sub D))%nat.
Proof.
  destruct (Chords.expert_run_chords a lanes sub D chord_chance g)
    as (bm & pattern & g' & groups & _ & H & Hn & Hg & Hf).
  exists bm, pattern, groups. repeat split; try assumption.
  - revert k H0 H1. clear -Hf.
    induction Hf as [|b gr0 bs groups Hr _ IH]; intros k Hk Hne.
    + destruct k; discriminate.
    + destruct k as [|k].
      * cbn in Hk. injection Hk as ->. cbn.
        destruct Hr as [Hr _]. now destruct (Hr Hne) as [-> _].
      * cbn in Hk |- *. now apply IH.
  - revert k H0 H1. clear -Hf.
    induction Hf as [|b gr0 bs groups Hr _ IH]; intros k Hk Hne.
    + destruct k; discriminate.
    + destruct k as [|k].
      * cbn in Hk. injection Hk as ->.
        destruct Hr as [Hr _]. now destruct (Hr Hne).
      * cbn in Hk. now apply (IH k).
  - rewrite Hn.
    apply (Chords.chord_count _ _ _ _ _ _ _ Hg Hf).
  - rewrite Hn.
    apply (Chords.chord_count _ _ _ _ _ _ _ Hg Hf).
Qed.

(** X10. With a chord chance of zero or less the expert generator adds no
    chord: its notes are exactly the note timestamps, in order, on the
    lanes of the chosen pattern taken cyclically. *)
Theorem no_chords_without_chance (a : Analysis) (lanes sub : Z)
    (D chord_chance : Q) (g : Random.rng) :
  (chord_chance <= 0)%Q ->
  exists bm pattern g',
    Random.choice patterns g = Py.Ok (pattern, g') /\
    generate_stream_map a lanes sub D chord_chance g = Py.Ok bm /\
    notes bm = pattern_notes pattern 0 (expert_timestamps a sub D).
Proof.
  intros Hcc.
  destruct (Chords.expert_run_chords a lanes sub D chord_chance g)
    as (bm & pattern & g' & groups & Hp & H & Hn & Hg & Hf).
  exists bm, pattern, g'. repeat split; try assumption.
  rewrite Hn. apply (Chords.no_chords_flat lanes); [assumption|].
  clear -Hf Hcc. induction Hf as [|b gr bs groups Hr _ IH]; constructor;
    [|assumption].
  destruct (snd gr) eqn:E; [reflexivity|]. exfalso.
  destruct Hr as [Hr _]. rewrite E in Hr.
  destruct (Hr ltac:(discriminate)) as [_ Hpos]. lra.
Qed.

(** X11. With a chord chance of one or more and at least two lanes every
    downbeat timestamp of the expert generator gets a chord: the number of
    notes is the number of timestamps plus the number of downbeats. *)
Theorem chord_on_every_downbeat (a : Analysis) (lanes sub : Z)
    (D chord_chance : Q) (g : Random.rng) :
  (1 <= chord_chance)%Q -> 2 <= lanes ->
  exists bm,
    generate_stream_map a lanes sub D chord_chance g = Py.Ok bm /\
    length (notes bm) =
    (length (expert_timestamps a sub D)
     + downbeats (expert_beat_flags a sub D))%nat.
Proof.
  intros Hcc Hl.
  destruct (Chords.expert_run_chords a lanes sub D chord_chance g)
    as (bm & pattern & g' & groups & _ & H & Hn & Hg & Hf).
  exists bm. split; [assumption|]. rewrite Hn.
  now apply (Chords.chord_count _ _ _ _ _ _ _ Hg Hf).
Qed.

Lemma all_high_flags flags :
  Forall (fun b => b = true) flags -> flags = repeat true (length flags).
Proof.
  induction 1 as [|b l Hb _ IH]; [reflexivity|].
  cbn. now rewrite Hb, <- IH.
Qed.

Lemma whole_song_intervals (n : nat) (beats : list Q) :
  length beats = n ->
  stream_intervals [(0, Z.of_nat n)] beats = (n - 1)%nat /\
  plain_intervals [(0, Z.of_nat n)] beats = 0%nat.
Proof.
  intros Hn. unfold stream_intervals, plain_intervals, interval_indices.
  rewrite Hn.
  assert (H : forall i, In i (map Z.of_nat (seq 0 (n - 1))) ->
            in_stream [(0, Z.of_nat n)] i = true).
  { intros i Hi. apply in_map_iff in Hi. destruct Hi as (k & <- & Hk).
    apply in_seq in Hk. cbn.
    destruct (Z.ltb_spec (Z.of_nat k) (Z.of_nat n)); [|lia].
    destruct (Z.leb_spec 0 (Z.of_nat k)); [reflexivity|lia]. }
  split.
  - rewrite Facts.filter_all by exact H.
    now rewrite length_map, length_seq.
  - induction (map Z.of_nat (seq 0 (n - 1))) as [|i l IH]; [reflexivity|].
    cbn [filter]. rewrite (H i) by now left. cbn [negb].
    apply IH. intros j Hj. apply H. now right.
Qed.

(** X12. When every beat is high-energy and there are at least as many
    beats as the minimum stream duration, the whole song is one stream
    section and every beat interval is subdivided: [max(S, 0)] timestamps
    per interval. *)
Theorem whole_song_stream (a : Analysis) (sub : Z) (D : Q) :
  beat_times a <> [] ->
  Forall (fun b => b = true) (expert_flags a) ->
  (D <= inject_Z (Py.len (beat_times a)))%Q ->
  expert_sections a D = [(0, Py.len (beat_times a))] /\
  length (expert_timestamps a sub D) =
  (Z.to_nat sub * (length (beat_times a) - 1))%nat.
Proof.
  intros Hne Hall HD.
  assert (Hlen : length (expert_flags a) = length (beat_times a)).
  { destruct (Quiet.classify_flags a) as (thr & _ & ->).
    now rewrite length_map. }
  assert (Hs : expert_sections a D = [(0, Py.len (beat_times a))]).
  { unfold expert_sections.
    rewrite (all_high_flags _ Hall), Hlen.
    pose proof (ExpertSections.single_run_sections D 0
                  (length (beat_times a)) 0) as H.
    cbn [repeat app] in H. rewrite app_nil_r in H.
    unfold Py.len at 1 in H. rewrite repeat_length in H.
    unfold Py.len. rewrite H.
    - apply Qle_bool_iff in HD. unfold Py.len in HD. now rewrite HD.
    - destruct (beat_times a); [congruence|]. simpl length. lia. }
  split; [exact Hs|].
  unfold expert_timestamps. rewrite Bounds.timestamp_count, Hs.
  destruct (whole_song_intervals (length (beat_times a)) (beat_times a)
              eq_refl) as [H1 H2].
  unfold Py.len. rewrite H1, H2. lia.
Qed.

(** X15. In any mode other than smart the configurable generator ignores
    the difficulty and the RMS curve: with at least one lane it returns
    one note per detected onset, in order, at the onset's millisecond. *)
Theorem chaotic_places_every_onset (a : Analysis)
    (config : Configurable.Config) (g : Random.rng) :
  String.eqb (Configurable.get (Configurable.cfg_mode config)
                               "chaotic"%string) "smart"%string = false ->
  1 <= Configurable.get (Configurable.cfg_lanes config) 4 ->
  exists bm,
    Configurable.generate_configurable_beatmap a config g = Py.Ok bm /\
    map time (notes bm) = map ms (onset_times a).
Proof.
  intros Hmode Hl. unfold Configurable.generate_configurable_beatmap.
  rewrite Hmode. cbn [andb Py.bind].
  destruct (NoRepeat.place_total _ (onset_times a) [] (-1) g Hl)
    as (res & Hres).
  rewrite Hres. cbn [Py.bind]. eexists. split; [reflexivity|].
  cbn [notes]. apply NoRepeat.place_spec in Hres.
  destruct Hres as (news & -> & Hp). cbn [app].
  eapply NoRepeat.placed_times, Hp.
Qed.

(** X16. With all onset frames on the RMS curve, the smart generator at
    difficulty 1 and the configurable generator in chaotic mode place the
    same notes (or raise the same exception) for the same lanes and the
    same state of the random source. *)
Theorem smart_full_difficulty_is_chaotic (a : Analysis) (lanes : Z)
    (difficulty : option Q) (g : Random.rng) :
  onset_frames_valid a ->
  result_notes (Smart.generate_smart_beatmap a 1 lanes g) =
  result_notes (Configurable.generate_configurable_beatmap a
                  (Configurable.mkConfig difficulty (Some lanes) None) g).
Proof.
  intros Hv.
  unfold Smart.generate_smart_beatmap,
    Configurable.generate_configurable_beatmap.
  cbn [Configurable.get Configurable.cfg_mode Configurable.cfg_lanes
       Configurable.cfg_difficulty String.eqb Ascii.eqb Bool.eqb andb].
  assert (E : (if 0 <? Py.len (onset_times a) then filter_onsets a 1
               else Py.Ok []) = Py.Ok (onset_times a)).
  { destruct (onset_times a) as [|t l] eqn:Eo; [reflexivity|].
    change (0 <? Py.len (t :: l)) with true. cbv iota.
    rewrite <- Eo. apply Filtering.filter_keeps_all; [|assumption].
    rewrite Eo. discriminate. }
  rewrite E. cbn [Py.bind].
  destruct (place_no_repeat lanes (onset_times a) [] (-1) g); reflexivity.
Qed.

(** X17. In smart mode the configurable generator places the same notes
    (or raises the same exception) as the smart generator, for the same
    difficulty, lanes and state of the random source. *)
Theorem smart_modes_agree (a : Analysis) (difficulty : Q) (lanes : Z)
    (g : Random.rng) :
  result_notes (Configurable.generate_configurable_beatmap a
                  (Configurable.mkConfig (Some difficulty) (Some lanes)
                                         (Some "smart"%string)) g) =
  result_notes (Smart.generate_smart_beatmap a difficulty lanes g).
Proof.
  unfold Smart.generate_smart_beatmap,
    Configurable.generate_configurable_beatmap.
  cbn [Configurable.get Configurable.cfg_mode Configurable.cfg_lanes
       Configurable.cfg_difficulty String.eqb Ascii.eqb Bool.eqb andb].
  destruct (onset_times a) as [|t l] eqn:Eo.
  - reflexivity.
  - change (0 <? Py.len (t :: l)) with true. cbv iota.
    destruct (filter_onsets a difficulty) as [ts|e]; cbn [Py.bind];
      [|reflexivity].
    destruct (place_no_repeat lanes ts [] (-1) g); reflexivity.
Qed.

(** X18. Without any detected onset both simple generators return a
    beatmap without notes, for every difficulty, lane count and mode: no
    percentile is taken and no lane is drawn. *)
Theorem no_onsets_no_notes (a : Analysis) (difficulty : Q) (lanes : Z)
    (config : Configurable.Config) (g : Random.rng) :
  onset_times a = [] ->
  result_notes (Smart.generate_smart_beatmap a difficulty lanes g) = Py.Ok [] /\
  result_notes (Configurable.generate_configurable_beatmap a config g)
  = Py.Ok [].
Proof.
  intros E.
  unfold Smart.generate_smart_beatmap,
    Configurable.generate_configurable_beatmap.
  rewrite E. change (0 <? Py.len (@nil Q)) with false.
  rewrite andb_false_r. split; reflexivity.
Qed.

(** X19. In smart mode a difficulty above 1 asks for a negative
    percentile: with at least one onset (all frames on the RMS curve) both
    simple generators raise [ValueError]. *)
Theorem difficulty_above_one_raises (a : Analysis) (difficulty : Q)
    (lanes : Z) (g : Random.rng) :
  onset_times a <> [] -> onset_frames_valid a ->
  (1 < difficulty)%Q ->
  Smart.generate_smart_beatmap a difficulty lanes g = Py.Raise Py.ValueError /\
  Configurable.generate_configurable_beatmap a
    (Configurable.mkConfig (Some difficulty) (Some lanes)
                           (Some "smart"%string)) g
  = Py.Raise Py.ValueError.
Proof.
  intros Hne Hv Hd.
  assert (Hf : filter_onsets a difficulty = Py.Raise Py.ValueError).
  { rewrite Difficulty.filter_onsets_valid by assumption.
    rewrite Filtering.percentile_out_of_range; [reflexivity|].
    left. lra. }
  unfold Smart.generate_smart_beatmap,
    Configurable.generate_configurable_beatmap.
  cbn [Configurable.get Configurable.cfg_mode Configurable.cfg_lanes
       Configurable.cfg_difficulty String.eqb Ascii.eqb Bool.eqb andb].
  rewrite (Filtering.onsets_present a Hne), Hf. split; reflexivity.
Qed.

(** X20. A higher difficulty never drops an onset: for difficulties
    [d1 <= d2] in [0, 1] every onset kept at [d1] is kept at [d2], and at
    least as many onsets are kept. *)
Theorem higher_difficulty_keeps_more (a : Analysis) (d1 d2 : Q) :
  (0 <= d1)%Q -> (d1 <= d2)%Q -> (d2 <= 1)%Q ->
  onset_times a <> [] -> onset_frames_valid a ->
  exists k1 k2,
    filter_onsets a d1 = Py.Ok k1 /\ filter_onsets a d2 = Py.Ok k2 /\
    incl k1 k2 /\ (length k1 <= length k2)%nat.
Proof.
  intros H0 H12 H1 Hne Hv.
  rewrite !Difficulty.filter_onsets_valid by assumption.
  destruct (Filtering.percentile_mono (map (strength a) (onset_times a))
              ((1 - d2) * 100)%Q ((1 - d1) * 100)%Q
              (Difficulty.strengths_nonempty a Hne)
              ltac:(lra) ltac:(lra) ltac:(lra))
    as (v2 & v1 & -> & -> & Hle).
  cbn [Py.bind]. eexists. eexists.
  split; [reflexivity|]. split; [reflexivity|].
  apply Filtering.filter_weaker. intros t _ Ht.
  apply Qle_bool_iff in Ht. apply Qle_bool_iff. lra.
Qed.

(** X21. The simple generators never invent a note: a returned beatmap has
    at most one note per detected onset, and the time of every note is the
    millisecond of a detected onset. *)
Theorem notes_come_from_onsets (a : Analysis) :
  (forall difficulty lanes g bm,
     Smart.generate_smart_beatmap a difficulty lanes g = Py.Ok bm ->
     (length (notes bm) <= length (onset_times a))%nat /\
     forall n, In n (notes bm) ->
               exists t, In t (onset_times a) /\ time n = ms t) /\
  (forall config g bm,
     Configurable.generate_configurable_beatmap a config g = Py.Ok bm ->
     (length (notes bm) <= length (onset_times a))%nat /\
     forall n, In n (notes bm) ->
               exists t, In t (onset_times a) /\ time n = ms t).
Proof.
  assert (Hplaced : forall lanes last ts news,
    placed lanes last ts news ->
    incl ts (onset_times a) ->
    (length ts <= length (onset_times a))%nat ->
    (length news <= length (onset_times a))%nat /\
    forall n, In n news -> exists t, In t (onset_times a) /\ time n = ms t).
  { intros lanes last ts news Hp Hincl Hlen.
    pose proof (NoRepeat.placed_times _ _ _ _ Hp) as Ht. split.
    - rewrite <- (length_map time), Ht, length_map. exact Hlen.
    - intros n Hn. apply (in_map time) in Hn. rewrite Ht in Hn.
      apply in_map_iff in Hn. destruct Hn as (t & E & Hin).
      exists t. split; [now apply Hincl|now symmetry]. }
  split.
  - intros d lanes g bm H. apply SimpleFacts.smart_notes in H.
    destruct H as (ts & Hts & Hp).
    destruct (0 <? Py.len (onset_times a)).
    + apply Filtering.filter_onsets_within in Hts.
      eapply Hplaced; [exact Hp|tauto|tauto].
    + injection Hts as <-. eapply Hplaced; [exact Hp| |cbn; lia].
      intros x [].
  - intros config g bm H. apply SimpleFacts.configurable_notes in H.
    destruct H as (ts & Hts & Hp).
    destruct (_ && _).
    + apply Filtering.filter_onsets_within in Hts.
      eapply Hplaced; [exact Hp|tauto|tauto].
    + injection Hts as <-. eapply Hplaced; [exact Hp| |lia].
      apply incl_refl.
Qed.

(** X22. In smart mode an onset whose frame lies past the end of the RMS
    curve makes both simple generators raise [IndexError], before any
    threshold is computed and whatever the difficulty and the lanes. *)
Theorem stray_onset_frame_raises (a : Analysis) (difficulty : Q) (lanes : Z)
    (g : Random.rng) :
  Exists (fun t => (length (rms a) <= time_to_frames a t)%nat)
         (onset_times a) ->
  Smart.generate_smart_beatmap a difficulty lanes g = Py.Raise Py.IndexError /\
  Configurable.generate_configurable_beatmap a
    (Configurable.mkConfig (Some difficulty) (Some lanes)
                           (Some "smart"%string)) g
  = Py.Raise Py.IndexError.
Proof.
  intros Hex.
  assert (Hne : onset_times a <> []).
  { intros E. rewrite E in Hex. inversion Hex. }
  assert (Hf : filter_onsets a difficulty = Py.Raise Py.IndexError).
  { unfold filter_onsets. rewrite Filtering.take_invalid; [reflexivity|].
    apply Exists_exists in Hex. destruct Hex as (t & Ht & Hlen).
    apply Exists_exists. exists (time_to_frames a t).
    split; [now apply in_map|assumption]. }
  unfold Smart.generate_smart_beatmap,
    Configurable.generate_configurable_beatmap.
  cbn [Configurable.get Configurable.cfg_mode Configurable.cfg_lanes
       Configurable.cfg_difficulty String.eqb Ascii.eqb Bool.eqb andb].
  rewrite (Filtering.onsets_present a Hne), Hf. split; reflexivity.
Qed.

End Coverage.

(** ** The further properties on sample inputs *)

Module CoverageSamples.
Import Expert.

Lemma stream_sections_disjoint_witness :
  (0 < 1)%nat /\
  nth_error (find_stream_sections [true; true; false; true; true] 5 2) 0
  = Some (0, 2) /\
  nth_error (find_stream_sections [true; true; false; true; true] 5 2) 1
  = Some (3, 5) /\
  2 < 3.
Proof.
  split; [lia|]. split; [reflexivity|]. split; [reflexivity|].
  apply (Coverage.stream_sections_disjoint
           [true; true; false; true; true] 2 0 1 0 2 3 5);
    [lia|reflexivity|reflexivity].
Defined.

Lemma streamed_beat_is_high_witness :
  in_stream (find_stream_sections [true; true; false; true; true] 5 2) 3
  = true /\
  0 <= 3 < 5 /\ flag_at [true; true; false; true; true] 3 = true.
Proof.
  split; [reflexivity|].
  destruct (Coverage.streamed_beat_is_high
              [true; true; false; true; true] 2 3 eq_refl) as (H1 & H2 & _).
  split; assumption.
Defined.

Lemma flat_rms_constant : Forall (fun x => (x == 2)%Q) (rms Cases.flat).
Proof. cbn. repeat constructor. Defined.

Lemma constant_energy_no_stream_witness :
  Forall (fun x => (x == 2)%Q) (rms Cases.flat) /\
  expert_sections Cases.flat 1 = [] /\
  length (expert_timestamps Cases.flat 4 1) = 2%nat.
Proof.
  split; [exact flat_rms_constant|].
  destruct (Coverage.constant_energy_no_stream Cases.flat 2 4 1
              flat_rms_constant) as (H1 & H2 & _).
  split; assumption.
Defined.

Lemma stray_beats_beyond :
  Forall (fun t => (length (rms Cases.stray)
                    <= time_to_frames Cases.stray t)%nat)
         (beat_times Cases.stray).
Proof. cbn. repeat constructor. Defined.

Lemma beats_beyond_signal_no_stream_witness :
  Forall (fun t => (length (rms Cases.stray)
                    <= time_to_frames Cases.stray t)%nat)
         (beat_times Cases.stray) /\
  expert_sections Cases.stray 1 = [] /\
  length (expert_timestamps Cases.stray 4 1) = 2%nat.
Proof.
  split; [exact stray_beats_beyond|].
  destruct (Coverage.beats_beyond_signal_no_stream Cases.stray 4 1
              stray_beats_beyond) as (H1 & H2 & _).
  split; assumption.
Defined.

Lemma short_beat_grid_no_notes_witness :
  (length (beat_times Cases.one_beat) <= 1)%nat /\
  exists bm,
    generate_stream_map Cases.one_beat 4 4 4 (1 # 4) Demo.rng = Py.Ok bm /\
    notes bm = [].
Proof.
  assert (H : (length (beat_times Cases.one_beat) <= 1)%nat) by (cbn; lia).
  split; [exact H|].
  exact (Coverage.short_beat_grid_no_notes Cases.one_beat 4 4 4 (1 # 4)
           Demo.rng H).
Defined.

Lemma note_times_within_beats_witness :
  Sorted Qlt (beat_times Demo.analysis) /\
  exists bm n,
    generate_stream_map Demo.analysis 4 4 4 (1 # 4) Demo.rng = Py.Ok bm /\
    In n (notes bm) /\
    ms (nth 0 (beat_times Demo.analysis) 0%Q) <= time n
    <= ms (last (beat_times Demo.analysis) 0%Q).
Proof.
  split; [exact Samples.sample_beats_increasing|].
  eexists. eexists.
  split; [vm_compute; reflexivity|]. split; [left; reflexivity|].
  eapply (Coverage.note_times_within_beats Demo.analysis 4 4 4 (1 # 4)
            Demo.rng _ _ Samples.sample_beats_increasing).
  - vm_compute. reflexivity.
  - left. reflexivity.
Defined.

Lemma no_chords_without_chance_witness :
  (0 <= 0)%Q /\
  exists bm pattern g',
    Random.choice patterns Demo.rng = Py.Ok (pattern, g') /\
    generate_stream_map Demo.analysis 4 4 4 0 Demo.rng = Py.Ok bm /\
    notes bm = pattern_notes pattern 0 (expert_timestamps Demo.analysis 4 4).
Proof.
  assert (H : (0 <= 0)%Q) by apply Qle_refl.
  split; [exact H|].
  exact (Coverage.no_chords_without_chance Demo.analysis 4 4 4 0 Demo.rng H).
Defined.

Lemma chord_on_every_downbeat_witness :
  (1 <= 1)%Q /\ 2 <= 4 /\
  exists bm,
    generate_stream_map Demo.analysis 4 4 4 1 Demo.rng = Py.Ok bm /\
    length (notes bm) =
    (length (expert_timestamps Demo.analysis 4 4)
     + downbeats (expert_beat_flags Demo.analysis 4 4))%nat.
Proof.
  assert (H : (1 <= 1)%Q) by apply Qle_refl.
  split; [exact H|]. split; [lia|].
  exact (Coverage.chord_on_every_downbeat Demo.analysis 4 4 4 1 Demo.rng
           H ltac:(lia)).
Defined.

Lemma loud_all_high : Forall (fun b => b = true) (expert_flags Cases.loud).
Proof. vm_compute. repeat constructor. Defined.

Lemma whole_song_stream_witness :
  beat_times Cases.loud <> [] /\
  Forall (fun b => b = true) (expert_flags Cases.loud) /\
  (4 <= inject_Z (Py.len (beat_times Cases.loud)))%Q /\
  expert_sections Cases.loud 4 = [(0, Py.len (beat_times Cases.loud))] /\
  length (expert_timestamps Cases.loud 4 4) =
  (Z.to_nat 4 * (length (beat_times Cases.loud) - 1))%nat.
Proof.
  assert (H1 : beat_times Cases.loud <> []) by (cbn; discriminate).
  assert (H2 : (4 <= inject_Z (Py.len (beat_times Cases.loud)))%Q)
    by (unfold Qle; cbn; lia).
  split; [exact H1|]. split; [exact loud_all_high|]. split; [exact H2|].
  exact (Coverage.whole_song_stream Cases.loud 4 4 H1 loud_all_high H2).
Defined.

Lemma expert_lanes_in_range_witness :
  4 <= 4 /\
  exists bm,
    generate_stream_map Demo.analysis 4 4 4 (1 # 4) Demo.rng = Py.Ok bm /\
    lanes_in_range 4 (notes bm).
Proof.
  split; [lia|].
  eexists. split; [vm_compute; reflexivity|].
  eapply (Beatmaps.expert_lanes_in_range Demo.analysis 4 4 4 (1 # 4)
            Demo.rng _ ltac:(lia)).
  vm_compute. reflexivity.
Defined.

Lemma chaotic_places_every_onset_witness :
  1 <= 4 /\
  exists bm,
    Configurable.generate_configurable_beatmap Demo.analysis
      (Configurable.mkConfig None None None) Demo.rng = Py.Ok bm /\
    map time (notes bm) = map ms (onset_times Demo.analysis).
Proof.
  split; [lia|].
  exact (Coverage.chaotic_places_every_onset Demo.analysis
           (Configurable.mkConfig None None None) Demo.rng
           eq_refl ltac:(cbn; lia)).
Defined.

Lemma smart_full_difficulty_is_chaotic_witness :
  onset_frames_valid Demo.analysis /\
  result_notes (Smart.generate_smart_beatmap Demo.analysis 1 4 Demo.rng) =
  result_notes (Configurable.generate_configurable_beatmap Demo.analysis
                  (Configurable.mkConfig None (Some 4) None) Demo.rng).
Proof.
  split; [exact Samples.sample_frames_valid|].
  exact (Coverage.smart_full_difficulty_is_chaotic Demo.analysis 4 None
           Demo.rng Samples.sample_frames_valid).
Defined.

Lemma no_onsets_no_notes_witness :
  onset_times Cases.silent = [] /\
  result_notes (Smart.generate_smart_beatmap Cases.silent (1 # 2) 0 Demo.rng)
  = Py.Ok [].
Proof.
  split; [reflexivity|].
  exact (proj1 (Coverage.no_onsets_no_notes Cases.silent (1 # 2) 0
                  (Configurable.mkConfig None None None) Demo.rng eq_refl)).
Defined.

Lemma difficulty_above_one_raises_witness :
  onset_times Demo.analysis <> [] /\ onset_frames_valid Demo.analysis /\
  (1 < 2)%Q /\
  Smart.generate_smart_beatmap Demo.analysis 2 4 Demo.rng
  = Py.Raise Py.ValueError.
Proof.
  assert (H : (1 < 2)%Q) by reflexivity.
  split; [exact Samples.sample_onsets_nonempty|].
  split; [exact Samples.sample_frames_valid|]. split; [exact H|].
  exact (proj1 (Coverage.difficulty_above_one_raises Demo.analysis 2 4
                  Demo.rng Samples.sample_onsets_nonempty
                  Samples.sample_frames_valid H)).
Defined.

Lemma higher_difficulty_keeps_more_witness :
  (0 <= 0)%Q /\ (0 <= 1 # 2)%Q /\ (1 # 2 <= 1)%Q /\
  onset_times Demo.analysis <> [] /\ onset_frames_valid Demo.analysis /\
  exists k1 k2,
    filter_onsets Demo.analysis 0 = Py.Ok k1 /\
    filter_onsets Demo.analysis (1 # 2) = Py.Ok k2 /\
    incl k1 k2 /\ (length k1 <= length k2)%nat.
Proof.
  assert (H0 : (0 <= 0)%Q) by apply Qle_refl.
  assert (H1 : (0 <= 1 # 2)%Q) by (unfold Qle; cbn; lia).
  assert (H2 : (1 # 2 <= 1)%Q) by (unfold Qle; cbn; lia).
  split; [exact H0|]. split; [exact H1|]. split; [exact H2|].
  split; [exact Samples.sample_onsets_nonempty|].
  split; [exact Samples.sample_frames_valid|].
  exact (Coverage.higher_difficulty_keeps_more Demo.analysis 0 (1 # 2)
           H0 H1 H2 Samples.sample_onsets_nonempty
           Samples.sample_frames_valid).
Defined.

Lemma stray_onset :
  Exists (fun t => (length (rms Cases.stray)
                    <= time_to_frames Cases.stray t)%nat)
         (onset_times Cases.stray).
Proof. cbn. left. cbn. lia. Defined.

Lemma stray_onset_frame_raises_witness :
  Exists (fun t => (length (rms Cases.stray)
                    <= time_to_frames Cases.stray t)%nat)
         (onset_times Cases.stray) /\
  Smart.generate_smart_beatmap Cases.stray 1 4 Demo.rng
  = Py.Raise Py.IndexError.
Proof.
  split; [exact stray_onset|].
  exact (proj1 (Coverage.stray_onset_frame_raises Cases.stray 1 4 Demo.rng
                  stray_onset)).
Defined.

End CoverageSamples.

(** ** Strict order of the timestamps and the downbeats *)

Module Ordering.
Import Expert.

Lemma stream_time_below_end (b e : Q) (k sub : Z) :
  (b < e)%Q -> 0 <= k < sub ->
  (b + inject_Z k * (e - b) / inject_Z sub < e)%Q.
Proof.
  intros Hbe Hk.
  assert (Hs : (0 < inject_Z sub)%Q).
  { change 0%Q with (inject_Z 0). rewrite <- Zlt_Qlt. lia. }
  assert (Hks : (inject_Z k < inject_Z sub)%Q) by (rewrite <- Zlt_Qlt; lia).
  assert (H1 : (inject_Z k * (e - b) / inject_Z sub < e - b)%Q).
  { apply Qlt_shift_div_r; [assumption|]. nra. }
  lra.
Qed.

Lemma stream_time_strict (b e : Q) (k1 k2 sub : Z) :
  (b < e)%Q -> 0 < sub -> k1 < k2 ->
  (b + inject_Z k1 * (e - b) / inject_Z sub
   < b + inject_Z k2 * (e - b) / inject_Z sub)%Q.
Proof.
  intros Hbe Hs Hk.
  assert (Hs' : (0 < inject_Z sub)%Q).
  { change 0%Q with (inject_Z 0). rewrite <- Zlt_Qlt. lia. }
  assert (Hk' : (inject_Z k1 < inject_Z k2)%Q) by (rewrite <- Zlt_Qlt; lia).
  assert (H : (inject_Z k1 * (e - b) / inject_Z sub
               < inject_Z k2 * (e - b) / inject_Z sub)%Q).
  { unfold Qdiv. apply Qmult_lt_compat_r.
    - now apply Qinv_lt_0_compat.
    - nra. }
  lra.
Qed.

Section Beats.
Variables (beats onsets : list Q) (secs : list StreamSection) (sub : Z).
Hypothesis beats_increasing : Sorted Qlt beats.

Lemma interval_times_below_end (i : nat) x :
  (S i < length beats)%nat ->
  In x (interval_times beats onsets secs sub (Z.of_nat i)) ->
  (x < beat_at beats (Z.of_nat (S i)))%Q.
Proof.
  intros Hi Hx.
  pose proof (ExpertOrder.beat_at_lt beats beats_increasing i Hi) as Hlt.
  replace (Z.of_nat (S i)) with (Z.of_nat i + 1) by lia.
  unfold interval_times in Hx.
  destruct (in_stream secs (Z.of_nat i)).
  - apply in_map_iff in Hx. destruct Hx as (k & <- & Hk).
    apply Facts.in_range in Hk. now apply stream_time_below_end.
  - destruct Hx as [<-|[]].
    destruct (filter _ onsets) as [|t rest] eqn:Ef; [assumption|].
    assert (Hin : In t (t :: rest)) by now left.
    rewrite <- Ef in Hin. apply filter_In in Hin.
    destruct Hin as [_ Hp]. apply andb_true_iff in Hp.
    destruct Hp as [_ H2]. now apply Facts.Qltb_lt in H2.
Qed.

Lemma interval_times_strict (i : nat) :
  (S i < length beats)%nat ->
  StronglySorted Qlt (interval_times beats onsets secs sub (Z.of_nat i)).
Proof.
  intros Hi.
  pose proof (ExpertOrder.beat_at_lt beats beats_increasing i Hi) as Hlt.
  unfold interval_times.
  destruct (in_stream secs (Z.of_nat i)); [|repeat constructor].
  destruct (Z.le_gt_cases sub 0) as [Hs|Hs].
  - rewrite Facts.range_nonpos by assumption. constructor.
  - eapply Facts.StronglySorted_map; [|apply ExpertOrder.range_increasing].
    intros k1 k2 Hk. cbv beta. apply stream_time_strict; [assumption|lia..].
Qed.

Lemma chunks_strict c n :
  (c + n < length beats)%nat ->
  StronglySorted Qlt
    (flat_map (interval_times beats onsets secs sub)
              (map Z.of_nat (seq c n))).
Proof.
  revert c. induction n as [|n IH]; intros c Hc; [constructor|].
  cbn [seq map flat_map].
  apply Facts.StronglySorted_app;
    [apply interval_times_strict; lia|apply IH; lia|].
  intros x y Hx Hy.
  apply interval_times_below_end in Hx; [|lia].
  destruct (ExpertOrder.chunks_sorted beats onsets secs sub beats_increasing
              (S c) n ltac:(lia)) as [_ Hlow].
  rewrite Forall_forall in Hlow. apply Hlow in Hy.
  eapply Qlt_le_trans; eassumption.
Qed.

Lemma timestamps_strict :
  StronglySorted Qlt (fst (note_timestamps_of beats onsets secs sub)).
Proof.
  rewrite ExpertTimestamps.note_timestamps_fuel. cbn [fst].
  unfold interval_indices.
  destruct (Nat.eq_dec (length beats) 0) as [E|E].
  - rewrite E. cbn. constructor.
  - apply chunks_strict. lia.
Qed.

End Beats.

Lemma filter_none {A} (p : A -> bool) l :
  (forall x, In x l -> p x = false) -> filter p l = [].
Proof.
  induction l as [|x l IH]; intros H; [reflexivity|].
  cbn [filter]. rewrite (H x) by now left.
  apply IH. intros y Hy. apply H. now right.
Qed.

Lemma one_downbeat secs sub i :
  1 <= sub -> downbeats (interval_flags secs sub i) = 1%nat.
Proof.
  intros Hs. unfold downbeats, interval_flags.
  destruct (in_stream secs i); [|reflexivity].
  unfold Py.range.
  destruct (Z.to_nat sub) as [|m] eqn:E; [lia|].
  cbn [seq map filter]. cbn [Z.of_nat Z.eqb length].
  rewrite filter_none; [reflexivity|].
  intros b Hb. apply in_map_iff in Hb. destruct Hb as (k & <- & Hk).
  apply in_map_iff in Hk. destruct Hk as (j & <- & Hj).
  apply in_seq in Hj. apply Z.eqb_neq. lia.
Qed.

(** X23. With strictly increasing beats the note timestamps of the expert
    generator are strictly increasing (in seconds): no two timestamps
    coincide, whatever the onsets, the sections and the subdivision. *)
Theorem timestamps_strictly_increasing (a : Analysis) (sub : Z) (D : Q) :
  Sorted Qlt (beat_times a) ->
  StronglySorted Qlt (expert_timestamps a sub D).
Proof.
  intros Hb. unfold expert_timestamps. now apply timestamps_strict.
Qed.

(** X24. With a subdivision of at least one every beat interval yields
    exactly one downbeat, so the expert generator has as many downbeat
    timestamps as beat intervals. *)
Theorem one_downbeat_per_interval (a : Analysis) (sub : Z) (D : Q) :
  1 <= sub ->
  downbeats (expert_beat_flags a sub D) = (length (beat_times a) - 1)%nat.
Proof.
  intros Hs. unfold expert_beat_flags.
  rewrite ExpertTimestamps.note_timestamps_fuel. cbn [snd].
  assert (H : forall l : list Z,
    downbeats (flat_map (interval_flags (expert_sections a D) sub) l)
    = length l).
  { induction l as [|i l IH]; [reflexivity|].
    cbn [flat_map length]. unfold downbeats in *.
    rewrite filter_app, length_app, IH.
    pose proof (one_downbeat (expert_sections a D) sub i Hs) as H1.
    unfold downbeats in H1. rewrite H1. reflexivity. }
  rewrite H. unfold interval_indices. now rewrite length_map, length_seq.
Qed.

Lemma timestamps_strictly_increasing_witness :
  Sorted Qlt (beat_times Demo.analysis) /\
  StronglySorted Qlt (expert_timestamps Demo.analysis 4 4).
Proof.
  split; [exact Samples.sample_beats_increasing|].
  exact (timestamps_strictly_increasing Demo.analysis 4 4
           Samples.sample_beats_increasing).
Defined.

Lemma one_downbeat_per_interval_witness :
  1 <= 4 /\
  downbeats (expert_beat_flags Demo.analysis 4 4) = 4%nat.
Proof.
  split; [lia|].
  exact (one_downbeat_per_interval Demo.analysis 4 4 ltac:(lia)).
Defined.

End Ordering.

(** ** Notes in the same millisecond *)

Module SameTime.
Import Expert.

Lemma spaced_ms_nth l i j x y :
  spaced_ms l -> (i + 2 <= j)%nat ->
  nth_error l i = Some x -> nth_error l j = Some y -> x < y.
Proof.
  revert i j. induction l as [|z l IH]; intros i j Hs Hij Hi Hj.
  - destruct i; discriminate.
  - cbn [spaced_ms] in Hs. destruct Hs as [Hf Hs]. destruct i as [|i].
    + cbn in Hi. injection Hi as <-.
      destruct j as [|[|j]]; try lia. cbn [nth_error] in Hj.
      destruct l as [|u l']; [discriminate|]. cbn [nth_error tl] in Hj, Hf.
      rewrite Forall_forall in Hf. eapply Hf, nth_error_In, Hj.
    + destruct j as [|j]; [lia|]. cbn in Hi, Hj.
      apply (IH i j); [assumption|lia|assumption..].
Qed.

(** Under [no_three_share_time], notes that share a time are
    neighbours. *)
Lemma same_time_neighbours ns i j n1 n2 :
  no_three_share_time ns -> (i < j)%nat ->
  nth_error ns i = Some n1 -> nth_error ns j = Some n2 ->
  time n1 = time n2 -> j = S i.
Proof.
  intros Hs Hij H1 H2 E.
  destruct (Nat.eq_dec j (S i)) as [|Hne]; [assumption|]. exfalso.
  apply (map_nth_error time) in H1. apply (map_nth_error time) in H2.
  pose proof (spaced_ms_nth _ i j _ _ Hs ltac:(lia) H1 H2). lia.
Qed.

(** With two lanes, notes of the no-repeat placement that share a time
    are on different lanes when no three notes share a time. *)
Lemma placed_no_three lanes last ts news :
  2 <= lanes -> placed lanes last ts news -> no_three_share_time news ->
  distinct_lanes_per_time news.
Proof.
  intros Hl Hp Hs i j n1 n2 Hij H1 H2 E.
  pose proof (same_time_neighbours news i j n1 n2 Hs Hij H1 H2 E) as ->.
  exact (NoRepeat.placed_adjacent _ _ _ _ Hl Hp i n1 n2 H1 H2).
Qed.

(** Neighbouring entries of every pattern differ, also around the end. *)
Lemma pattern_neighbours pattern z :
  In pattern patterns ->
  nth (Z.to_nat (z mod 8)) pattern 0
  <> nth (Z.to_nat ((z + 1) mod 8)) pattern 0.
Proof.
  intros Hin. pose proof (Z.mod_pos_bound z 8 ltac:(lia)) as Hm.
  rewrite (Z.add_mod z 1 8) by lia.
  remember (z mod 8) as m eqn:Em. clear Em.
  assert (Hcases : m = 0 \/ m = 1 \/ m = 2 \/ m = 3 \/
                   m = 4 \/ m = 5 \/ m = 6 \/ m = 7) by lia.
  unfold patterns in Hin.
  destruct Hin as [<-|[<-|[<-|[]]]];
    destruct Hcases as [->|[->|[->|[->|[->|[->|[->| ->]]]]]]];
    intros E; vm_compute in E; discriminate E.
Qed.

Lemma first_of_groups lanes pattern pi ts groups n :
  groups_ok lanes pattern pi ts groups ->
  nth_error (flatten groups) 0 = Some n ->
  lane n = nth (Z.to_nat (pi mod Py.len pattern)) pattern 0.
Proof.
  destruct ts as [|t ts]; destruct groups as [|gr groups]; cbn;
    try contradiction; try discriminate.
  intros [[Hprim _] _] H. injection H as <-. now rewrite Hprim.
Qed.

(** Neighbours in the note list of the expert placement that share a time
    are on different lanes when no three notes share a time. *)
Lemma groups_neighbours lanes pattern pi ts groups :
  In pattern patterns ->
  groups_ok lanes pattern pi ts groups ->
  no_three_share_time (flatten groups) ->
  forall i n1 n2,
    nth_error (flatten groups) i = Some n1 ->
    nth_error (flatten groups) (S i) = Some n2 ->
    time n1 = time n2 -> lane n1 <> lane n2.
Proof.
  intros Hin. destruct (ExpertPlacement.patterns_shape _ Hin) as [H8 _].
  assert (Hlen : Py.len pattern = 8) by (unfold Py.len; now rewrite H8).
  revert pi groups.
  induction ts as [|t ts IH]; intros pi [|gr groups] Hg Hs i n1 n2 H1 H2 E;
    cbn in Hg; try contradiction.
  - destruct i; discriminate.
  - destruct Hg as [[Hprim Hch] Hg]. destruct gr as [p cs].
    cbn [fst snd] in *. unfold no_three_share_time, flatten in Hs, H1, H2.
    cbn [flat_map fst snd] in Hs, H1, H2.
    fold (flatten groups) in Hs, H1, H2.
    destruct Hch as [->|(l2 & -> & Hr & Hne)]; cbn [app map] in Hs, H1, H2.
    + cbn [spaced_ms] in Hs. destruct Hs as [_ Hs]. destruct i as [|i].
      * cbn in H1, H2. injection H1 as <-.
        rewrite (first_of_groups _ _ _ _ _ _ Hg H2), Hprim. cbn [lane].
        rewrite Hlen. now apply pattern_neighbours.
      * cbn in H1, H2. exact (IH _ _ Hg Hs i n1 n2 H1 H2 E).
    + cbn [spaced_ms tl] in Hs. destruct Hs as [Hfar [_ Hs]].
      destruct i as [|[|i]].
      * cbn in H1, H2. injection H1 as <-. injection H2 as <-.
        cbn. intros E'. apply Hne. now symmetry.
      * cbn in H1. injection H1 as <-. exfalso.
        change (nth_error (flatten groups) 0 = Some n2) in H2.
        rewrite Forall_forall in Hfar.
        apply (map_nth_error time), nth_error_In, Hfar in H2.
        rewrite Hprim in H2. cbn in H2, E. lia.
      * cbn in H1, H2. exact (IH _ _ Hg Hs i n1 n2 H1 H2 E).
Qed.

(** Under strictly increasing milliseconds, two notes of the expert
    placement that share a time are a primary note and its chord. *)
Lemma same_time_is_chord lanes pattern pi ts groups :
  groups_ok lanes pattern pi ts groups ->
  StronglySorted Z.lt (map ms ts) ->
  forall i j n1 n2, (i < j)%nat ->
    nth_error (flatten groups) i = Some n1 ->
    nth_error (flatten groups) j = Some n2 ->
    time n1 = time n2 ->
    lane n1 <> lane n2 /\ In (n1, [n2]) groups.
Proof.
  revert pi groups.
  induction ts as [|t ts IH]; intros pi [|gr groups] Hg Hs i j n1 n2 Hij H1 H2 E;
    cbn in Hg; try contradiction.
  - destruct i; discriminate.
  - destruct Hg as [[Hprim Hch] Hg]. cbn [map] in Hs.
    inversion Hs as [|? ? Hs' Hall]; subst.
    rewrite Forall_forall in Hall.
    assert (Hlater : forall n', In n' (flatten groups) -> ms t < time n').
    { intros n' Hn'. apply (ExpertPlacement.groups_times _ _ _ _ _ _ Hg) in Hn'.
      now apply Hall. }
    destruct gr as [p cs]. cbn [fst snd] in *.
    unfold flatten in H1, H2. cbn [flat_map fst snd] in H1, H2.
    fold (flatten groups) in H1, H2.
    destruct Hch as [->|(l2 & -> & Hr & Hne)]; cbn [app] in H1, H2.
    + destruct i as [|i].
      * cbn in H1. injection H1 as <-. destruct j as [|j]; [lia|].
        cbn in H2. apply nth_error_In, Hlater in H2.
        rewrite Hprim in E. cbn in E. lia.
      * destruct j as [|j]; [lia|]. cbn in H1, H2.
        destruct (IH _ _ Hg Hs' i j n1 n2 ltac:(lia) H1 H2 E) as [Hl Hin].
        split; [exact Hl|now right].
    + destruct i as [|[|i]].
      * cbn in H1. injection H1 as <-. destruct j as [|[|j]]; [lia| |].
        -- cbn in H2. injection H2 as <-. split; [|now left].
           cbn. intros E'. apply Hne. now symmetry.
        -- cbn in H2. apply nth_error_In, Hlater in H2.
           rewrite Hprim in E. cbn in E. lia.
      * cbn in H1. injection H1 as <-. destruct j as [|[|j]]; [lia|lia|].
        cbn in H2. apply nth_error_In, Hlater in H2. cbn in E. lia.
      * destruct j as [|[|j]]; [lia|lia|]. cbn in H1, H2.
        destruct (IH _ _ Hg Hs' i j n1 n2 ltac:(lia) H1 H2 E) as [Hl Hin].
        split; [exact Hl|now right].
Qed.

(** C4, amended. In every generated beatmap in which no three notes share
    a [time] (every note's time is strictly earlier than the time of all
    notes two or more places after it), two notes that share a [time] are
    on different lanes; for the simple generators this needs at least two
    lanes. In the expert generator, when the note timestamps fall in
    strictly increasing milliseconds, two notes that share a [time] are a
    primary note and the chord note of the same timestamp. *)
Theorem distinct_lanes_unless_three_share (a : Analysis) :
  (forall lanes sub D chord_chance g bm,
     generate_stream_map a lanes sub D chord_chance g = Py.Ok bm ->
     no_three_share_time (notes bm) ->
     distinct_lanes_per_time (notes bm)) /\
  (forall difficulty lanes g bm,
     2 <= lanes ->
     Smart.generate_smart_beatmap a difficulty lanes g = Py.Ok bm ->
     no_three_share_time (notes bm) ->
     distinct_lanes_per_time (notes bm)) /\
  (forall config g bm,
     2 <= Configurable.get (Configurable.cfg_lanes config) 4 ->
     Configurable.generate_configurable_beatmap a config g = Py.Ok bm ->
     no_three_share_time (notes bm) ->
     distinct_lanes_per_time (notes bm)) /\
  (forall lanes sub D chord_chance g bm,
     Sorted Z.lt (map ms (expert_timestamps a sub D)) ->
     generate_stream_map a lanes sub D chord_chance g = Py.Ok bm ->
     exists pattern groups,
       notes bm = flatten groups /\
       groups_ok lanes pattern 0 (expert_timestamps a sub D) groups /\
       forall i j n1 n2, (i < j)%nat ->
         nth_error (notes bm) i = Some n1 ->
         nth_error (notes bm) j = Some n2 ->
         time n1 = time n2 ->
         lane n1 <> lane n2 /\ In (n1, [n2]) groups).
Proof.
  split; [|split; [|split]].
  - intros lanes sub D cc g bm H Hs.
    destruct (Beatmaps.expert_run a lanes sub D cc g)
      as (bm' & pattern & g' & groups & Hp & H' & Hn & Hg).
    rewrite H in H'. injection H' as <-.
    apply Basics.choice_In in Hp. rewrite Hn in *.
    intros i j n1 n2 Hij H1 H2 E.
    pose proof (same_time_neighbours _ i j n1 n2 Hs Hij H1 H2 E) as ->.
    exact (groups_neighbours lanes pattern 0 _ groups Hp Hg Hs
             i n1 n2 H1 H2 E).
  - intros d lanes g bm Hl H Hs. apply SimpleFacts.smart_notes in H.
    destruct H as (ts & _ & Hp).
    exact (placed_no_three lanes (-1) ts (notes bm) Hl Hp Hs).
  - intros config g bm Hl H Hs. apply SimpleFacts.configurable_notes in H.
    destruct H as (ts & _ & Hp).
    exact (placed_no_three _ (-1) ts (notes bm) Hl Hp Hs).
  - intros lanes sub D cc g bm Hs H.
    destruct (Beatmaps.expert_run a lanes sub D cc g)
      as (bm' & pattern & g' & groups & _ & H' & Hn & Hg).
    rewrite H in H'. injection H' as <-.
    exists pattern, groups. split; [exact Hn|]. split; [exact Hg|].
    apply Sorted_StronglySorted in Hs; [|intros x y z; lia].
    rewrite Hn.
    exact (same_time_is_chord lanes pattern 0 _ groups Hg Hs).
Qed.

(** Two lanes and two onsets in the same millisecond. *)
Lemma distinct_lanes_unless_three_share_witness :
  2 <= 2 /\
  exists bm,
    Smart.generate_smart_beatmap Demo.dense_onsets 1 2 Demo.rng = Py.Ok bm /\
    map time (notes bm) = [0; 0] /\
    no_three_share_time (notes bm) /\
    distinct_lanes_per_time (notes bm).
Proof.
  split; [lia|].
  eexists. split; [vm_compute; reflexivity|]. split; [reflexivity|].
  assert (Hs : no_three_share_time [mkNote 0 1; mkNote 0 0]).
  { unfold no_three_share_time. cbn. repeat split; constructor. }
  split; [exact Hs|].
  apply (proj1 (proj2 (distinct_lanes_unless_three_share Demo.dense_onsets))
               1%Q 2 Demo.rng _ ltac:(lia)); [|exact Hs].
  vm_compute. reflexivity.
Defined.

End SameTime.
